(** * Quality control of weather-radar volumes

    A shallow embedding of [quality_control.py]: the range clamp, the noise
    and clutter filters, the dealiasing driver, the file-name repair and the
    CSU-CHILL sweep-index repair, followed by the properties proved of them.

    Conventions of the embedding.
    - A gate value is an IEEE binary64 number (numpy's float64), modelled by
      Rocq's primitive floats; comparisons are the IEEE ones, so every
      comparison with NaN is false, and assigning [None] into a float array
      stores NaN.
    - A field array is a two-dimensional array indexed [ray][gate], a list of
      rows.  Every field of a volume is a numpy masked array: its [.data]
      attribute is the underlying float array and its mask a boolean array.
    - A field dictionary [radar.fields[name]] is identified with its ['data']
      entry, the only entry the program reads or writes.
    - The radar object is mutated in place.  A function of the program that
      receives the object is a computation in a state-and-exception monad
      whose state is that object; the object a Python function returns is
      the final state.
    - An assignment through [.data] of a masked array never raises
      [NotImplementedError] or [TypeError]; the [except] clauses that name
      them are modelled as written and are not reached on such fields.
    - Arrays combined elementwise have one shape (the invariant of a radar
      volume); numpy's broadcasting of unequal shapes is not modelled.
    - Text that is sliced or searched (file names) is a list of characters;
      dictionary keys are strings. *)

From Stdlib Require Import ZArith Floats Ascii String List Bool Lia.
From stdpp Require Import base option list gmap strings.

Local Open Scope Z_scope.

(** ** Python values *)

(** Python [str] values that the program slices and searches. *)
Definition str : Type := list ascii.

Coercion list_ascii_of_string : string >-> list.

(** The exception classes that occur in the program: the ones its primitives
    raise ([KeyError], [IndexError], [ValueError]) and the ones its [except]
    clauses name. *)
Inductive exn : Type :=
| KeyError (key : string)
| IndexError
| ValueError
| NotImplementedError
| TypeError.

Definition is_KeyError (e : exn) : bool :=
  match e with KeyError _ => true | _ => false end.

Definition is_NotImplementedError (e : exn) : bool :=
  match e with NotImplementedError => true | _ => false end.

Definition is_TypeError (e : exn) : bool :=
  match e with TypeError => true | _ => false end.

(** *** Slices

    [l[start:stop]] with Python's treatment of negative and out-of-range
    bounds; [None] is an omitted bound. *)
Definition slice_index (n : nat) (i : option Z) (default : nat) : nat :=
  match i with
  | None => default
  | Some i =>
      if i <? 0 then Z.to_nat (Z.max (i + Z.of_nat n) 0)
      else Z.to_nat (Z.min i (Z.of_nat n))
  end.

Definition py_slice {A : Type} (l : list A) (start stop : option Z) : list A :=
  let n := length l in
  let a := slice_index n start 0 in
  let b := slice_index n stop n in
  take (b - a) (drop a l).

(** *** [str.replace] and [str.split] *)

Fixpoint starts_with (p s : str) : bool :=
  match p, s with
  | [], _ => true
  | _ :: _, [] => false
  | a :: p', b :: s' => if decide (a = b) then starts_with p' s' else false
  end.

(** ["abc".replace("", x)] is [x + "a" + x + "b" + x + "c" + x]. *)
Fixpoint intersperse_all (new s : str) : str :=
  match s with
  | [] => new
  | c :: s' => new ++ c :: intersperse_all new s'
  end.

(** Left-to-right replacement of the non-overlapping occurrences of a
    non-empty [old]; [skip] counts the characters of an occurrence that has
    just been replaced and are still to be passed over. *)
Fixpoint replace_from (old new : str) (skip : nat) (s : str) : str :=
  match s with
  | [] => []
  | c :: s' =>
      match skip with
      | S k => replace_from old new k s'
      | O =>
          if starts_with old s
          then new ++ replace_from old new (length old - 1) s'
          else c :: replace_from old new 0 s'
      end
  end.

Definition replace (s old new : str) : str :=
  match old with
  | [] => intersperse_all new s
  | _ :: _ => replace_from old new 0 s
  end.

(** [s.split(sep)[0]] for a one-character separator: the text before the
    first separator, the whole text when there is none. *)
Fixpoint split_first (sep : ascii) (s : str) : str :=
  match s with
  | [] => []
  | c :: s' => if decide (c = sep) then [] else c :: split_first sep s'
  end.

(** *** Arrays *)

Abbreviation ndarray A := (list (list A)) (only parsing).

(** The row lengths of an array; for a rectangular array this determines
    numpy's [shape]. *)
Definition shape {A : Type} (a : ndarray A) : list nat := length <$> a.

Definition gate {A : Type} (a : ndarray A) (ray gate : nat) : option A :=
  a !! ray ≫= (.!! gate).

(** Elementwise operations on one array and on two arrays of one shape. *)
Definition map2d {A B : Type} (f : A -> B) (a : ndarray A) : ndarray B :=
  fmap (M := list) (fmap (M := list) f) a.

Definition zip2d {A B C : Type} (f : A -> B -> C) (a : ndarray A)
    (b : ndarray B) : ndarray C :=
  zip_with (zip_with f) a b.

(** [a > x] and [a < x] for an array and a scalar. *)
Definition gt_scalar (a : ndarray float) (x : float) : ndarray bool :=
  map2d (fun v => PrimFloat.ltb x v) a.

Definition lt_scalar (a : ndarray float) (x : float) : ndarray bool :=
  map2d (fun v => PrimFloat.ltb v x) a.

(** [~m]. *)
Definition invert (m : ndarray bool) : ndarray bool := map2d negb m.

(** [m1 & m2] / [np.logical_and(m1, m2)] on boolean arrays of one shape.
    Broadcasting of arrays with different shapes is outside the model: the
    operation raises as numpy does for shapes that cannot be broadcast. *)
Definition logical_and (m1 m2 : ndarray bool) : exn + ndarray bool :=
  if decide (shape m1 = shape m2)
  then inr (zip2d andb m1 m2)
  else inl ValueError.

(** [a[m] = x] for a boolean index array [m]: numpy requires the shape of
    [m] to match that of [a]. *)
Definition assign (x : float) (b : bool) (v : float) : float :=
  if b then x else v.

Definition setitem_bool (a : ndarray float) (m : ndarray bool) (x : float)
  : exn + ndarray float :=
  if decide (shape m = shape a)
  then inr (zip2d (assign x) m a)
  else inl IndexError.

(** [k[m] = False] on the mask of a masked array. *)
Definition clear_mask (k m : ndarray bool) : exn + ndarray bool :=
  if decide (shape m = shape k)
  then inr (zip2d (fun (b : bool) (v : bool) => if b then false else v) m k)
  else inl IndexError.

(** A numpy masked array: the underlying data and the mask. *)
Record masked_array : Type := MaskedArray {
  ma_data : ndarray float;
  ma_mask : ndarray bool
}.

(** [ma.count()] of a one-dimensional masked array: its unmasked elements. *)
Definition count_unmasked (mask_row : list bool) : nat :=
  length (filter (fun b => b = false) mask_row).

(** ** The radar volume *)

Record Radar : Type := mkRadar {
  fields : gmap string masked_array;
  metadata : gmap string string;
  nsweeps : nat;
  sweep_start_ray_index : list Z;
  sweep_end_ray_index : list Z
}.

Definition set_fields (r : Radar) (fs : gmap string masked_array) : Radar :=
  {| fields := fs; metadata := metadata r; nsweeps := nsweeps r;
     sweep_start_ray_index := sweep_start_ray_index r;
     sweep_end_ray_index := sweep_end_ray_index r |}.

(** ** The state-and-exception monad *)

Definition Py (S A : Type) : Type := S -> (exn + A) * S.

#[global] Instance Py_ret (S : Type) : MRet (Py S) :=
  fun A (a : A) (s : S) => (inr a, s).

#[global] Instance Py_bind (S : Type) : MBind (Py S) :=
  fun A B (k : A -> Py S B) (m : Py S A) (s : S) =>
    match m s with
    | (inr a, s') => k a s'
    | (inl e, s') => (inl e, s')
    end.

Definition raise {S A : Type} (e : exn) : Py S A := fun s => (inl e, s).

(** Lifts a pure fallible operation. *)
Definition lift {S A : Type} (x : exn + A) : Py S A := fun s => (x, s).

(** [try: body  except cls: handler].  The handler starts from the state the
    body left behind, as in-place mutation does. *)
Definition try_except {S A : Type} (body : Py S A) (cls : exn -> bool)
    (handler : Py S A) : Py S A :=
  fun s =>
    match body s with
    | (inl e, s') => if cls e then handler s' else (inl e, s')
    | ok => ok
    end.

(** [for x in l: body(x)]. *)
Fixpoint for_each {S A : Type} (l : list A) (body : A -> Py S unit) : Py S unit :=
  match l with
  | [] => mret tt
  | x :: l' => body x;; for_each l' body
  end.

(** *** Accesses to the radar object *)

(** [radar.fields[name]['data'].data]: the underlying array. *)
Definition get_data (name : string) : Py Radar (ndarray float) :=
  fun r =>
    match fields r !! name with
    | Some f => (inr (ma_data f), r)
    | None => (inl (KeyError name), r)
    end.

(** [radar.fields[name]['data'].data[m] = x]: writes through to the
    underlying array and leaves the mask alone. *)
Definition data_setitem (name : string) (m : ndarray bool) (x : float)
  : Py Radar unit :=
  fun r =>
    match fields r !! name with
    | None => (inl (KeyError name), r)
    | Some f =>
        match setitem_bool (ma_data f) m x with
        | inl e => (inl e, r)
        | inr d =>
            (inr tt,
             set_fields r (<[name := MaskedArray d (ma_mask f)]> (fields r)))
        end
    end.

(** [radar.fields[name]['data'][m] = None]: [MaskedArray.__setitem__] stores
    the value and clears the mask at the indexed gates. *)
Definition ma_setitem_None (name : string) (m : ndarray bool) : Py Radar unit :=
  fun r =>
    match fields r !! name with
    | None => (inl (KeyError name), r)
    | Some f =>
        match setitem_bool (ma_data f) m nan, clear_mask (ma_mask f) m with
        | inr d, inr k =>
            (inr tt, set_fields r (<[name := MaskedArray d k]> (fields r)))
        | inl e, _ | _, inl e => (inl e, r)
        end
    end.

(** ** The program *)

(** [set2range(radar, field, val_max, val_min)]. *)
Definition set2range (field : string) (val_max val_min : float) : Py Radar unit :=
  d ← get_data field;
  let over := gt_scalar d val_max in
  d ← get_data field;
  let under := lt_scalar d val_min in
  data_setitem field over val_max;;
  data_setitem field under val_min.

(** [removeNoiseZ(radar, radar_fieldnames, Z_min, Z_max)]. *)
Definition removeNoiseZ (radar_fieldnames : list string) (Z_min Z_max : float)
  : Py Radar unit :=
  '(over, under) ←
    try_except
      (d ← get_data "reflectivity";
       let over := gt_scalar d Z_max in
       d ← get_data "reflectivity";
       let under := lt_scalar d Z_min in
       mret (over, under))
      is_KeyError
      (d ← get_data "DBZH";
       let over := gt_scalar d Z_max in
       d ← get_data "DBZV";
       let under := lt_scalar d Z_min in
       mret (over, under));
  for_each radar_fieldnames (fun field =>
    try_except
      (data_setitem field over nan;;
       data_setitem field under nan)
      is_NotImplementedError
      (ma_setitem_None field over;;
       ma_setitem_None field under)).

(** [removeMountainClutter(radar, radar_fieldnames)].  The two list
    brackets and the final [np.reshape] of the source wrap the boolean
    array in leading axes of length one and remove them again; on arrays
    of one shape they leave the conjunction of the three comparisons. *)
Definition removeMountainClutter (radar_fieldnames : list string) : Py Radar unit :=
  let Z_max := 25%float in
  d ← get_data "dealiased_velocity";
  let slow := lt_scalar d 0x1.999999999999ap-3%float in
  d ← get_data "dealiased_velocity";
  let slow2 := gt_scalar d (- 0x1.999999999999ap-3)%float in
  near_stationary ← lift (logical_and slow slow2);
  d ← get_data "reflectivity";
  let highz := gt_scalar d Z_max in
  mountainIndices ← lift (logical_and near_stationary highz);
  for_each radar_fieldnames (fun field =>
    try_except
      (data_setitem field mountainIndices nan)
      is_NotImplementedError
      (ma_setitem_None field mountainIndices)).

(** [removeNoiseZdr(radar, radar_fieldnames, Zdr_min, Zdr_max)]. *)
Definition removeNoiseZdr (radar_fieldnames : list string) (Zdr_min Zdr_max : float)
  : Py Radar unit :=
  d ← get_data "differential_reflectivity";
  let over := gt_scalar d Zdr_max in
  d ← get_data "differential_reflectivity";
  let under := lt_scalar d Zdr_min in
  for_each radar_fieldnames (fun field =>
    data_setitem field over nan;;
    data_setitem field under nan).

(** [removeNoiseRhoHV(radar, radar_fieldnames, rhohv_min, rhohv_max)]. *)
Definition removeNoiseRhoHV (radar_fieldnames : list string)
    (rhohv_min rhohv_max : float) : Py Radar unit :=
  '(over, under) ←
    try_except
      (d ← get_data "cross_correlation_ratio";
       let over := gt_scalar d rhohv_max in
       d ← get_data "cross_correlation_ratio";
       let under := lt_scalar d rhohv_min in
       mret (over, under))
      is_KeyError
      (try_except
         (d ← get_data "RHOHV";
          let over := gt_scalar d rhohv_max in
          d ← get_data "RHOHV";
          let under := lt_scalar d rhohv_min in
          mret (over, under))
         is_KeyError
         (d ← get_data "correlation_coefficient";
          let over := gt_scalar d rhohv_max in
          d ← get_data "correlation_coefficient";
          let under := lt_scalar d rhohv_min in
          mret (over, under)));
  for_each radar_fieldnames (fun field =>
    try_except
      (data_setitem field over nan;;
       data_setitem field under nan)
      is_NotImplementedError
      (ma_setitem_None field over;;
       ma_setitem_None field under)).

(** [removeNoisePhiDP(radar, radar_fieldnames, PhiDP_min, PhiDP_max)]. *)
Definition removeNoisePhiDP (radar_fieldnames : list string)
    (PhiDP_min PhiDP_max : float) : Py Radar unit :=
  '(over, under) ←
    try_except
      (d ← get_data "PHIDP";
       let over := gt_scalar d PhiDP_max in
       d ← get_data "PHIDP";
       let under := lt_scalar d PhiDP_min in
       mret (over, under))
      is_KeyError
      (d ← get_data "specific_differential_phase";
       let over := gt_scalar d PhiDP_max in
       d ← get_data "specific_differential_phase";
       let under := lt_scalar d PhiDP_min in
       mret (over, under));
  for_each radar_fieldnames (fun field =>
    try_except
      (data_setitem field over nan;;
       data_setitem field under nan)
      is_TypeError
      (ma_setitem_None field over;;
       ma_setitem_None field under)).

(** [removeNoiseNCP(radar, radar_fieldnames, ncp_min, ncp_max)]. *)
Definition removeNoiseNCP (radar_fieldnames : list string) (ncp_min ncp_max : float)
  : Py Radar unit :=
  d ← get_data "normalized_coherent_power";
  let over := gt_scalar d ncp_max in
  d ← get_data "normalized_coherent_power";
  let under := lt_scalar d ncp_min in
  for_each radar_fieldnames (fun field =>
    try_except
      (data_setitem field over nan;;
       data_setitem field under nan)
      is_NotImplementedError
      (ma_setitem_None field over;;
       ma_setitem_None field under)).

(** [removeNoiseSNR(radar, radar_fieldnames, snr_min, snr_max)]. *)
Definition removeNoiseSNR (radar_fieldnames : list string) (snr_min snr_max : float)
  : Py Radar unit :=
  d1 ← get_data "snr";
  d2 ← get_data "snr";
  within ← lift (logical_and (lt_scalar d1 snr_max) (gt_scalar d2 snr_min));
  for_each radar_fieldnames (fun field =>
    try_except
      (data_setitem field (invert within) nan)
      is_NotImplementedError
      (ma_setitem_None field (invert within))).

(** [PPI_fixfilename(filename)]. *)
Definition PPI_fixfilename (filename : str) : str :=
  let end_ := Z.of_nat (length filename) in
  if decide (py_slice filename (Some (end_ - 17)) (Some (end_ - 15)) = "s0") then
    let chopstr := py_slice filename (Some (end_ - 17)) (Some (end_ - 6)) in
    let filename :=
      if decide (py_slice chopstr (Some (-1)) None = "0") then
        let longchopstr := py_slice filename (Some (end_ - 17)) (Some (end_ - 5)) in
        replace filename longchopstr "SUR_"
      else filename in
    replace filename chopstr "SUR_"
  else filename.

(** [fix_CHILL_PPI_sweep_start_end(radar)]. *)
Definition fix_CHILL_PPI_sweep_start_end : Py Radar unit :=
  fun radar =>
    (inr tt,
     {| fields := fields radar; metadata := metadata radar;
        nsweeps := nsweeps radar;
        sweep_start_ray_index := [0; 382; 789; 1208; 1604; 2027];
        sweep_end_ray_index := [381; 788; 1176; 1567; 1993; 2428] |}).

(** ** The dealiasing driver

    [pyart.correct.dealias_region_based] and [Radar.extract_sweeps] are
    algorithms of the PyART library: they are parameters of the model.  Every
    call that leaves the program ([print], the two library calls and
    [pyart.io.write_cfradial]) is recorded, with its arguments, in a trace. *)

(** A keyword argument of a call: left out, or passed with a value. *)
Inductive kwarg (A : Type) : Type :=
| Omitted
| Passed (a : A).
Arguments Omitted {A}.
Arguments Passed {A} a.

Inductive event : Type :=
| Print (text : string)
| Extract_sweeps (radar : Radar) (sweeps : list nat)
| Dealias_region_based (radar : Radar) (vel_field : string)
    (nyquist_vel : kwarg (option float))
    (skip_along_ray skip_between_rays : Z) (gatefilter keep_original : bool)
| Write_cfradial (filename : str) (radar : Radar).

Record pyart : Type := {
  dealias_region_based :
    Radar -> string -> kwarg (option float) -> Z -> Z -> bool -> bool ->
    masked_array;
  extract_sweeps : Radar -> list nat -> Radar
}.

(** The state of [dealias]: the object bound to its local variable [radar]
    and the trace written so far. *)
Definition dstate : Type := Radar * list event.

Definition emit (e : event) : Py dstate unit :=
  fun s => (inr tt, (s.1, s.2 ++ [e])).

Definition get_radar : Py dstate Radar := fun s => (inr s.1, s).

Definition put_radar (r : Radar) : Py dstate unit := fun s => (inr tt, (r, s.2)).

(** [radar.metadata[key]]. *)
Definition get_metadata (key : string) : Py dstate string :=
  fun s =>
    match metadata s.1 !! key with
    | Some v => (inr v, s)
    | None => (inl (KeyError key), s)
    end.

(** [radar.get_slice(i)]: the rays [start .. end] of sweep [i], as the
    bounds of [slice(start, end + 1)]. *)
Definition get_slice (i : nat) : Py dstate (Z * Z) :=
  fun s =>
    match sweep_start_ray_index s.1 !! i, sweep_end_ray_index s.1 !! i with
    | Some a, Some b => (inr (a, b + 1), s)
    | _, _ => (inl IndexError, s)
    end.

(** [radar.fields[name]['data'][sweep][0,:]]: the first ray of the rays
    selected by [sweep]; only its mask is used. *)
Definition first_ray_mask (name : string) (sweep : Z * Z) : Py dstate (list bool) :=
  fun s =>
    match fields s.1 !! name with
    | None => (inl (KeyError name), s)
    | Some f =>
        match py_slice (ma_mask f) (Some sweep.1) (Some sweep.2) with
        | row :: _ => (inr row, s)
        | [] => (inl IndexError, s)
        end
    end.

(** [radar.add_field(name, dic, True)]: with [replace_existing] set, the
    field is stored under [name] whether or not the name is taken. *)
Definition add_field (name : string) (dic : masked_array) : Py dstate unit :=
  fun s => (inr tt, (set_fields s.1 (<[name := dic]> (fields s.1)), s.2)).

(** A [for] loop that threads a local variable through its body. *)
Fixpoint for_fold {S A B : Type} (l : list A) (acc : B)
    (body : A -> B -> Py S B) : Py S B :=
  match l with
  | [] => mret acc
  | x :: l' => acc' ← body x acc; for_fold l' acc' body
  end.

(** [dealias(radar, filename, outpath, name2dealias, new_name, nyquist_vel,
    skip_along_ray, skip_between_rays, savefile)].  The radar the function
    returns is the first component of the final state. *)
Definition dealias (lib : pyart) (filename outpath : str)
    (name2dealias new_name : string) (nyquist_vel : option float)
    (skip_along_ray skip_between_rays : Z) (savefile : bool)
  : Py dstate unit :=
  container ← get_metadata "original_container";
  (if bool_decide (container ≠ "NEXRAD Level II") then
     match nyquist_vel with
     | Some _ =>
         emit (Print "Dealiasing in progress!");;
         radar ← get_radar;
         good ← for_fold (seq 0 (nsweeps radar)) [] (fun i good =>
           sweep ← get_slice i;
           row ← first_ray_mask name2dealias sweep;
           if bool_decide (count_unmasked row ≠ 0%nat)
           then mret (good ++ [i])
           else mret good);
         radar ← get_radar;
         emit (Extract_sweeps radar good);;
         put_radar (extract_sweeps lib radar good)
     | None => mret tt
     end
   else mret tt);;
  container ← get_metadata "original_container";
  (if bool_decide (container = "NEXRAD Level II") then
     radar ← get_radar;
     emit (Dealias_region_based radar name2dealias Omitted
             skip_along_ray skip_between_rays false false);;
     let corr_vel :=
       dealias_region_based lib radar name2dealias Omitted
         skip_along_ray skip_between_rays false false in
     add_field new_name corr_vel
   else
     radar ← get_radar;
     emit (Dealias_region_based radar name2dealias (Passed nyquist_vel)
             skip_along_ray skip_between_rays false false);;
     let corr_vel :=
       dealias_region_based lib radar name2dealias (Passed nyquist_vel)
         skip_along_ray skip_between_rays false false in
     add_field new_name corr_vel);;
  emit (Print "Dealiasing complete in current file!");;
  (if savefile then
     let split_file_0 := split_first "." filename in
     let filesavename : str := outpath ++ split_file_0 ++ "_dealiased.cfradial" in
     radar ← get_radar;
     emit (Write_cfradial filesavename radar)
   else mret tt).

(** ** Vocabulary of the properties *)

(** The field [name] of [r] with its underlying data replaced. *)
Definition with_data (r : Radar) (name : string) (f : masked_array)
    (d : list (list float)) : Radar :=
  set_fields r (<[name := MaskedArray d (ma_mask f)]> (fields r)).

(** The value [set2range] leaves at a gate that held [v]. *)
Definition clamped (val_min val_max v : float) : float :=
  if (v <? val_min)%float then val_min
  else if (val_max <? v)%float then val_max else v.

(** The field [f] with the gates selected by [m] set to NaN. *)
Definition blank (m : list (list bool)) (f : masked_array) : masked_array :=
  MaskedArray (zip2d (assign nan) m (ma_data f)) (ma_mask f).

(** One pass of a filter's loop body over a listed field. *)
Definition blanks_field (m : list (list bool)) (body : string -> Py Radar unit) : Prop :=
  forall name r f,
    fields r !! name = Some f -> shape (ma_data f) = shape m ->
    body name r = (inr tt, set_fields r (<[name := blank m f]> (fields r))).

(** What a filter's loop leaves behind: the listed fields blanked by [m],
    everything else as it was. *)
Definition blanked (m : list (list bool)) (names : list string) (r r' : Radar) : Prop :=
  (forall name,
     fields r' !! name =
     if decide (name ∈ names) then blank m <$> fields r !! name
     else fields r !! name) /\
  metadata r' = metadata r /\ nsweeps r' = nsweeps r /\
  sweep_start_ray_index r' = sweep_start_ray_index r /\
  sweep_end_ray_index r' = sweep_end_ray_index r.

(** The listed fields exist and have the shape [sh]. *)
Definition listed (sh : list nat) (names : list string) (r : Radar) : Prop :=
  forall name, name ∈ names ->
    exists f, fields r !! name = Some f /\ shape (ma_data f) = sh.

(** The value a listed field holds at a gate after a loop. *)
Definition field_gate (r : Radar) (name : string) (i j : nat) : option float :=
  f ← fields r !! name; gate (ma_data f) i j.

(** The six noise filters, the names each one looks up, in order, for the
    array that drives it ([removeNoiseZ]: the name of its [try] branch), and
    the gates each one keeps and blanks. *)
Inductive noise_filter : Type :=
| NoiseZ | NoiseZdr | NoiseRhoHV | NoisePhiDP | NoiseNCP | NoiseSNR.

Definition run_filter (F : noise_filter)
  : list string -> float -> float -> Py Radar unit :=
  match F with
  | NoiseZ => removeNoiseZ
  | NoiseZdr => removeNoiseZdr
  | NoiseRhoHV => removeNoiseRhoHV
  | NoisePhiDP => removeNoisePhiDP
  | NoiseNCP => removeNoiseNCP
  | NoiseSNR => removeNoiseSNR
  end.

Definition chain (F : noise_filter) : list string :=
  match F with
  | NoiseZ => ["reflectivity"]
  | NoiseZdr => ["differential_reflectivity"]
  | NoiseRhoHV => ["cross_correlation_ratio"; "RHOHV"; "correlation_coefficient"]
  | NoisePhiDP => ["PHIDP"; "specific_differential_phase"]
  | NoiseNCP => ["normalized_coherent_power"]
  | NoiseSNR => ["snr"]
  end%string.

Fixpoint first_present (names : list string) (r : Radar) : option string :=
  match names with
  | [] => None
  | n :: names' =>
      match fields r !! n with
      | Some _ => Some n
      | None => first_present names' r
      end
  end.

Definition within (lo hi d : float) : Prop :=
  (lo <=? d)%float = true /\ (d <=? hi)%float = true.

Definition outside (lo hi d : float) : Prop :=
  (d <? lo)%float = true \/ (hi <? d)%float = true.

Definition strictly_within (lo hi d : float) : Prop :=
  (lo <? d)%float = true /\ (d <? hi)%float = true.

Definition keeps (F : noise_filter) (lo hi d : float) : Prop :=
  match F with
  | NoiseSNR => strictly_within lo hi d
  | _ => within lo hi d
  end.

Definition blanks (F : noise_filter) (lo hi d : float) : Prop :=
  match F with
  | NoiseSNR => ~ strictly_within lo hi d
  | _ => outside lo hi d
  end.

(** The masks a filter computes from one driving array. *)
Definition out_of_bounds (lo hi : float) (d : list (list float)) : list (list bool) :=
  map2d (fun v => (hi <? v)%float || (v <? lo)%float) d.

(** The gates [F] blanks, from the array [d] that drives it. *)
Definition blank_mask (F : noise_filter) (lo hi : float) (d : list (list float))
  : list (list bool) :=
  match F with
  | NoiseSNR => map2d (fun v => negb ((v <? hi)%float && (lo <? v)%float)) d
  | _ => out_of_bounds lo hi d
  end.

(** ** Sample volumes *)

Definition unmasked (a : list (list float)) : masked_array :=
  MaskedArray a (map2d (fun _ => false) a).

Definition polarimetric_radar : Radar :=
  mkRadar
    {[ "reflectivity" := unmasked [[5; 30; 45]]%float;
       "differential_reflectivity" := unmasked [[-9; 1; 8]]%float;
       "snr" := unmasked [[1; 2; 3]]%float;
       "dealiased_velocity" := unmasked [[0.125; 0.125; 7]]%float ]}
    {[ "original_container" := "NEXRAD Level II" ]} 1 [0] [0].

Definition dual_pol_radar : Radar :=
  mkRadar
    {[ "DBZH" := unmasked [[10; -50; 100]]%float;
       "DBZV" := unmasked [[-50; 10; 10]]%float ]}
    ∅ 1 [0] [0].

(** The positions, counted from [i], at which [old] occurs in [s]. *)
Fixpoint occurrences_from (old : str) (i : nat) (s : str) : list nat :=
  match s with
  | [] => []
  | _ :: s' =>
      (if starts_with old s then [i] else []) ++ occurrences_from old (S i) s'
  end.

(** The two characters [filename[end-17:end-15]] that [PPI_fixfilename]
    tests. *)
Definition tested_slice (filename : str) : str :=
  let end_ := Z.of_nat (length filename) in
  py_slice filename (Some (end_ - 17)) (Some (end_ - 15)).

(** *** Vocabulary for [dealias] *)

Definition NEXRAD : string := "NEXRAD Level II".

(** The number of unmasked gates in the first ray of sweep [i] of the field
    [name]; [None] where the loop of [dealias] raises. *)
Definition first_ray_count (r : Radar) (name : string) (i : nat) : option nat :=
  a ← sweep_start_ray_index r !! i;
  b ← sweep_end_ray_index r !! i;
  f ← fields r !! name;
  row ← head (py_slice (ma_mask f) (Some a) (Some (b + 1)));
  Some (count_unmasked row).

Definition has_data (r : Radar) (name : string) (i : nat) : bool :=
  match first_ray_count r name i with
  | Some (S _) => true
  | _ => false
  end.

(** The sweeps [dealias] keeps: those whose first ray has an unmasked gate. *)
Definition good_sweeps (r : Radar) (name : string) : list nat :=
  filter (fun i => has_data r name i = true) (seq 0 (nsweeps r)).

(** [dealias] extracts sweeps when the volume is not NEXRAD and a Nyquist
    velocity is given. *)
Definition prefilters (tag : string) (nyquist_vel : option float) : bool :=
  bool_decide (tag <> NEXRAD) && bool_decide (is_Some nyquist_vel).

(** The volume handed to the unfolding, and the Nyquist argument of the
    call. *)
Definition unfolding_input (lib : pyart) (r : Radar) (name : string)
    (tag : string) (nyquist_vel : option float) : Radar :=
  if prefilters tag nyquist_vel
  then extract_sweeps lib r (good_sweeps r name)
  else r.

Definition nyquist_argument (tag : string) (nyquist_vel : option float)
  : kwarg (option float) :=
  if bool_decide (tag = NEXRAD) then Omitted else Passed nyquist_vel.

(** A stand-in for the library, for evaluating [dealias]: the unfolding
    returns the field it is given, and [extract_sweeps] keeps the rays of
    the listed sweeps, one after the other. *)
Definition sweep_rows {A : Type} (r : Radar) (a : list (list A)) (i : nat)
  : list (list A) :=
  match sweep_start_ray_index r !! i, sweep_end_ray_index r !! i with
  | Some s, Some e => py_slice a (Some s) (Some (e + 1))
  | _, _ => []
  end.

Definition select_sweeps (r : Radar) (sweeps : list nat) (f : masked_array)
  : masked_array :=
  MaskedArray (concat (sweep_rows r (ma_data f) <$> sweeps))
              (concat (sweep_rows r (ma_mask f) <$> sweeps)).

Fixpoint sweep_bounds (from : Z) (lengths : list nat) : list (Z * Z) :=
  match lengths with
  | [] => []
  | n :: rest =>
      (from, from + Z.of_nat n - 1) :: sweep_bounds (from + Z.of_nat n) rest
  end.

Definition sweep_length (r : Radar) (i : nat) : nat :=
  match sweep_start_ray_index r !! i, sweep_end_ray_index r !! i with
  | Some s, Some e => Z.to_nat (e - s + 1)
  | _, _ => 0
  end.

Definition sample_extract_sweeps (r : Radar) (sweeps : list nat) : Radar :=
  let bounds := sweep_bounds 0 (sweep_length r <$> sweeps) in
  {| fields := select_sweeps r sweeps <$> fields r;
     metadata := metadata r;
     nsweeps := length sweeps;
     sweep_start_ray_index := fst <$> bounds;
     sweep_end_ray_index := snd <$> bounds |}.

Definition sample_pyart : pyart :=
  {| dealias_region_based := fun r vel_field _ _ _ _ _ =>
       default (MaskedArray [] []) (fields r !! vel_field);
     extract_sweeps := sample_extract_sweeps |}.

(** A volume of three one-ray sweeps whose second sweep is fully masked. *)
Definition uf_radar : Radar :=
  mkRadar
    {[ "velocity" :=
         MaskedArray [[1; 2]; [3; 4]; [5; 6]]%float
                     [[false; false]; [true; true]; [false; true]] ]}
    {[ "original_container" := "UF" ]} 3 [0; 1; 2] [0; 1; 2].

(** The volume [dealias] returns: the unfolding's result stored under
    [new_name] in the volume handed to the unfolding. *)
Definition dealias_result (lib : pyart) (input : Radar)
    (name2dealias new_name : string) (nyquist : kwarg (option float))
    (skip_along_ray skip_between_rays : Z) : Radar :=
  set_fields input
    (<[new_name :=
         dealias_region_based lib input name2dealias nyquist
           skip_along_ray skip_between_rays false false]> (fields input)).

(** *** Vocabulary of the further properties *)

(** A loop body that raises on a listed name that is missing, and on a
    listed field whose shape is not that of the mask [m]; in both cases
    before changing anything. *)
Definition raises_on_missing (body : string -> Py Radar unit) : Prop :=
  forall name r,
    fields r !! name = None -> body name r = (inl (KeyError name), r).

Definition raises_on_mismatch (m : list (list bool))
    (body : string -> Py Radar unit) : Prop :=
  forall name r f,
    fields r !! name = Some f -> shape (ma_data f) <> shape m ->
    body name r = (inl IndexError, r).

(** A volume whose differential reflectivity has a NaN gate. *)
Definition gappy_radar : Radar :=
  mkRadar
    {[ "reflectivity" := unmasked [[5; 30; 45]]%float;
       "differential_reflectivity" := unmasked [[nan; 1; 8]]%float ]}
    ∅ 1 [0] [0].

(** A volume whose velocity field has one gate less than its reflectivity. *)
Definition ragged_radar : Radar :=
  mkRadar
    {[ "reflectivity" := unmasked [[5; 30; 45]]%float;
       "differential_reflectivity" := unmasked [[-9; 1; 8]]%float;
       "velocity" := unmasked [[1; 2]]%float ]}
    ∅ 1 [0] [0].

(** The gates [removeMountainClutter] blanks, from the velocity and the
    reflectivity arrays. *)
Definition clutter_mask (vel refl : list (list float)) : list (list bool) :=
  zip2d andb
    (map2d (fun v => (v <? 0x1.999999999999ap-3)%float &&
                     (- 0x1.999999999999ap-3 <? v)%float) vel)
    (map2d (fun z => (25 <? z)%float) refl).

(** The exception the loop of [dealias] raises at a sweep it cannot read:
    an index list too short or a sweep without rays gives [IndexError], a
    missing field its [KeyError]. *)
Definition sweep_error (r : Radar) (name : string) (i : nat) : exn :=
  match sweep_start_ray_index r !! i, sweep_end_ray_index r !! i with
  | Some _, Some _ =>
      match fields r !! name with
      | None => KeyError name
      | Some _ => IndexError
      end
  | _, _ => IndexError
  end.

(** A volume whose second sweep has no rays. *)
Definition rayless_radar : Radar :=
  mkRadar
    {[ "velocity" :=
         MaskedArray [[1; 2]; [3; 4]]%float [[false; false]; [false; true]] ]}
    {[ "original_container" := "UF" ]} 3 [0; 1; 1] [0; 0; 1].

(** * Properties *)

(** ** IEEE comparisons *)

Module FloatOrder.

Lemma SFcompare_antisym x y c :
  SFcompare x y = Some c -> SFcompare y x = Some (CompOpp c).
Proof.
  destruct x as [sx|sx| |sx mx ex], y as [sy|sy| |sy my ey]; simpl;
    try discriminate; intros [= <-];
    try (destruct sx); try (destruct sy); simpl; try reflexivity.
  all: change (Pos.compare_cont Eq ?a ?b) with (Pos.compare a b);
    rewrite (Z.compare_antisym ex ey), (Pos.compare_antisym mx my);
    destruct (ex ?= ey)%Z; simpl; try reflexivity;
    destruct (mx ?= my)%positive; reflexivity.
Qed.

Lemma SFcompare_Lt_trans x y z :
  SFcompare x y = Some Lt -> SFcompare y z = Some Lt -> SFcompare x z = Some Lt.
Proof.
  destruct x as [sx|sx| |sx mx ex], y as [sy|sy| |sy my ey],
           z as [sz|sz| |sz mz ez]; simpl; try discriminate;
    try (destruct sx); try (destruct sy); try (destruct sz);
    simpl; try discriminate; try reflexivity.
  all: change (Pos.compare_cont Eq ?a ?b) with (Pos.compare a b);
    destruct (Z.compare_spec ex ey), (Z.compare_spec ey ez),
      (Z.compare_spec ex ez); try discriminate; try reflexivity; try lia;
    destruct (Pos.compare_spec mx my), (Pos.compare_spec my mz),
      (Pos.compare_spec mx mz); simpl; try discriminate; try reflexivity; lia.
Qed.

Lemma SFcompare_Eq_Lt x y z :
  SFcompare x y = Some Eq -> SFcompare y z = Some Lt -> SFcompare x z = Some Lt.
Proof.
  destruct x as [sx|sx| |sx mx ex], y as [sy|sy| |sy my ey],
           z as [sz|sz| |sz mz ez]; simpl; try discriminate;
    try (destruct sx); try (destruct sy); try (destruct sz);
    simpl; try discriminate; try reflexivity.
  all: change (Pos.compare_cont Eq ?a ?b) with (Pos.compare a b);
    destruct (Z.compare_spec ex ey), (Z.compare_spec ey ez),
      (Z.compare_spec ex ez); try discriminate; try reflexivity; try lia;
    destruct (Pos.compare_spec mx my), (Pos.compare_spec my mz),
      (Pos.compare_spec mx mz); simpl; try discriminate; try reflexivity; lia.
Qed.

(** [a <= b] excludes [b < a]. *)
Lemma leb_not_gt (a b : float) :
  (a <=? b)%float = true -> (b <? a)%float = false.
Proof.
  rewrite leb_spec, ltb_spec. unfold SFleb, SFltb.
  destruct (SFcompare (Prim2SF a) (Prim2SF b)) as [c|] eqn:E; [|discriminate].
  rewrite (SFcompare_antisym _ _ _ E). destruct c; simpl; congruence.
Qed.

Lemma ltb_irrefl (a : float) : (a <? a)%float = false.
Proof.
  rewrite ltb_spec. unfold SFltb.
  destruct (SFcompare (Prim2SF a) (Prim2SF a)) as [c|] eqn:E; [|reflexivity].
  pose proof (SFcompare_antisym _ _ _ E) as E'. rewrite E in E'.
  destruct c; simpl in *; congruence.
Qed.

(** [lo <= hi < v] excludes [v < lo]. *)
Lemma leb_ltb_not_lt (lo hi v : float) :
  (lo <=? hi)%float = true -> (hi <? v)%float = true -> (v <? lo)%float = false.
Proof.
  rewrite leb_spec, !ltb_spec. unfold SFleb, SFltb. intros H1 H2.
  destruct (SFcompare (Prim2SF lo) (Prim2SF hi)) as [c1|] eqn:E1; [|discriminate].
  destruct (SFcompare (Prim2SF hi) (Prim2SF v)) as [c2|] eqn:E2; [|discriminate].
  destruct c2; try discriminate.
  assert (SFcompare (Prim2SF lo) (Prim2SF v) = Some Lt) as E3.
  { destruct c1; try discriminate.
    - eapply SFcompare_Eq_Lt; eauto.
    - eapply SFcompare_Lt_trans; eauto. }
  rewrite (SFcompare_antisym _ _ _ E3). reflexivity.
Qed.

End FloatOrder.


(** ** Arrays *)

Section Arrays.
Context {A B C : Type}.

Lemma shape_map2d (f : A -> B) (a : list (list A)) : shape (map2d f a) = shape a.
Proof.
  unfold shape, map2d. rewrite <- list_fmap_compose.
  apply list_fmap_ext. intros i row _. simpl. apply length_fmap.
Qed.

Lemma shape_zip2d (f : A -> B -> C) (a : list (list A)) (b : list (list B)) :
  shape a = shape b -> shape (zip2d f a b) = shape b.
Proof.
  unfold shape, zip2d. revert b.
  induction a as [|ra a IH]; intros [|rb b]; simpl; try done.
  intros [= Hr Ht]. rewrite length_zip_with, Hr, Nat.min_id. f_equal. by apply IH.
Qed.

Lemma gate_map2d (f : A -> B) (a : list (list A)) i j :
  gate (map2d f a) i j = f <$> gate a i j.
Proof.
  unfold gate, map2d. rewrite list_lookup_fmap.
  destruct (a !! i) as [row|]; simpl; [|done]. apply list_lookup_fmap.
Qed.

Lemma gate_zip2d (f : A -> B -> C) (a : list (list A)) (b : list (list B)) i j :
  gate (zip2d f a b) i j = x ← gate a i j; y ← gate b i j; Some (f x y).
Proof.
  unfold gate, zip2d. rewrite lookup_zip_with.
  destruct (a !! i) as [ra|]; simpl; [|done].
  destruct (b !! i) as [rb|]; simpl.
  - apply lookup_zip_with.
  - by destruct (ra !! j).
Qed.

Lemma gate_shape (a : list (list A)) (b : list (list B)) i j :
  shape a = shape b -> is_Some (gate a i j) -> is_Some (gate b i j).
Proof.
  unfold shape, gate. intros Hs [x Hx].
  destruct (a !! i) as [ra|] eqn:Ea; simpl in Hx; [|done].
  assert ((length <$> a) !! i = Some (length ra)) as Hl
    by (by rewrite list_lookup_fmap, Ea).
  rewrite Hs, list_lookup_fmap in Hl.
  destruct (b !! i) as [rb|]; simpl in *; [|done].
  injection Hl as Hl. apply lookup_lt_is_Some. rewrite Hl.
  by eapply lookup_lt_Some.
Qed.
End Arrays.

Lemma zip2d_map2d {A B C D : Type} (f : B -> C -> D) (p : A -> B) (g : A -> C)
    (a : list (list A)) :
  zip2d f (map2d p a) (map2d g a) = map2d (fun v => f (p v) (g v)) a.
Proof.
  unfold zip2d, map2d. induction a as [|row a IH]; simpl; [done|].
  f_equal; [|exact IH]. clear. induction row as [|v row IH]; simpl; [done|].
  by f_equal.
Qed.

Lemma zip2d_map2d_l {A B C : Type} (f : B -> A -> C) (p : A -> B)
    (a : list (list A)) :
  zip2d f (map2d p a) a = map2d (fun v => f (p v) v) a.
Proof.
  unfold zip2d, map2d. induction a as [|row a IH]; simpl; [done|].
  f_equal; [|exact IH]. clear. induction row as [|v row IH]; simpl; [done|].
  by f_equal.
Qed.

Lemma map2d_ext {A B : Type} (f g : A -> B) (a : list (list A)) :
  (forall v, f v = g v) -> map2d f a = map2d g a.
Proof.
  intros H. unfold map2d. apply list_fmap_ext; intros ? row _.
  apply list_fmap_ext; intros ? v _. apply H.
Qed.

Lemma map2d_map2d {A B C : Type} (f : A -> B) (g : B -> C) (a : list (list A)) :
  map2d g (map2d f a) = map2d (fun v => g (f v)) a.
Proof.
  unfold map2d. rewrite <- list_fmap_compose. apply list_fmap_ext; intros ? row _.
  simpl. by rewrite <- list_fmap_compose.
Qed.

(** ** Running computations *)

Lemma bind_run {S A B : Type} (m : Py S A) (k : A -> Py S B) (s : S) :
  (m ≫= k) s =
  match m s with (inr a, s') => k a s' | (inl e, s') => (inl e, s') end.
Proof. reflexivity. Qed.

Lemma try_except_ok {S A : Type} (body handler : Py S A) cls s a s' :
  body s = (inr a, s') -> try_except body cls handler s = (inr a, s').
Proof. unfold try_except. by intros ->. Qed.

Lemma get_data_Some name r f :
  fields r !! name = Some f -> get_data name r = (inr (ma_data f), r).
Proof. unfold get_data. by intros ->. Qed.

Lemma get_data_None name r :
  fields r !! name = None -> get_data name r = (inl (KeyError name), r).
Proof. unfold get_data. by intros ->. Qed.

Lemma data_setitem_ok name m x r f :
  fields r !! name = Some f -> shape m = shape (ma_data f) ->
  data_setitem name m x r = (inr tt, with_data r name f (zip2d (assign x) m (ma_data f))).
Proof.
  unfold data_setitem, setitem_bool. intros -> Hs. by rewrite decide_True.
Qed.

Lemma with_data_lookup r name f d :
  fields (with_data r name f d) !! name = Some (MaskedArray d (ma_mask f)).
Proof. simpl. apply lookup_insert_eq. Qed.

Lemma with_data_twice r name f f' d d' :
  ma_mask f' = ma_mask f ->
  with_data (with_data r name f d) name f' d' = with_data r name f d'.
Proof.
  unfold with_data, set_fields. simpl. intros ->. by rewrite insert_insert_eq.
Qed.

(** ** [set2range] *)

Lemma set2range_run field val_max val_min r f :
  fields r !! field = Some f ->
  set2range field val_max val_min r =
  (inr tt, with_data r field f (map2d (clamped val_min val_max) (ma_data f))).
Proof.
  intros Hf. unfold set2range, gt_scalar, lt_scalar.
  rewrite !bind_run, (get_data_Some _ _ _ Hf).
  rewrite !bind_run, (get_data_Some _ _ _ Hf), bind_run.
  rewrite (data_setitem_ok _ _ _ _ _ Hf) by apply shape_map2d.
  rewrite zip2d_map2d_l.
  erewrite data_setitem_ok; [|apply with_data_lookup|].
  2:{ cbn [ma_data]. rewrite !shape_map2d. reflexivity. }
  cbn [ma_data]. rewrite with_data_twice by done. rewrite zip2d_map2d.
  reflexivity.
Qed.

Lemma clamped_idem val_min val_max v :
  (val_min <=? val_max)%float = true ->
  clamped val_min val_max (clamped val_min val_max v) = clamped val_min val_max v.
Proof.
  intros Hle. unfold clamped.
  destruct (v <? val_min)%float eqn:E1.
  - by rewrite FloatOrder.ltb_irrefl, (FloatOrder.leb_not_gt _ _ Hle).
  - destruct (val_max <? v)%float eqn:E2.
    + by rewrite (FloatOrder.leb_not_gt _ _ Hle), FloatOrder.ltb_irrefl.
    + by rewrite E1, E2.
Qed.


(** C8: with [val_min <= val_max], running [set2range] twice with the same
    arguments leaves the volume, and so the data of the field, exactly as
    running it once does; when the field is missing both raise the same
    [KeyError]. *)
Theorem set2range_idempotent (r : Radar) (field : string)
    (val_max val_min : float) :
  (val_min <=? val_max)%float = true ->
  (set2range field val_max val_min;; set2range field val_max val_min) r =
  set2range field val_max val_min r.
Proof.
  intros Hle. rewrite bind_run.
  destruct (fields r !! field) as [f|] eqn:Hf.
  - rewrite (set2range_run _ _ _ _ _ Hf).
    erewrite set2range_run by apply with_data_lookup.
    simpl ma_data. rewrite with_data_twice by done. rewrite map2d_map2d.
    do 2 f_equal. apply map2d_ext. intros v. by apply clamped_idem.
  - unfold set2range. by rewrite bind_run, (get_data_None _ _ Hf).
Qed.



Lemma set2range_idempotent_witness :
  (-8 <=? 16)%float = true /\
  (set2range "reflectivity" 16%float (-8)%float;;
   set2range "reflectivity" 16%float (-8)%float) polarimetric_radar
  = set2range "reflectivity" 16%float (-8)%float polarimetric_radar.
Proof.
  split; [reflexivity|].
  exact (set2range_idempotent polarimetric_radar "reflectivity"
           16%float (-8)%float eq_refl).
Defined.

(** The clamp of the sample volume, evaluated. *)
Example set2range_sample :
  exists r',
    set2range "reflectivity" 16%float (-8)%float polarimetric_radar
      = (inr tt, r') /\
    ma_data <$> fields r' !! "reflectivity" = Some [[5; 16; 16]]%float.
Proof. eexists. split; [vm_compute; reflexivity|reflexivity]. Qed.

(** ** Blanking gates *)

Lemma zip2d_assign_twice (x : float) (m1 m2 : list (list bool)) (d : list (list float)) :
  zip2d (assign x) m2 (zip2d (assign x) m1 d) = zip2d (assign x) (zip2d orb m1 m2) d.
Proof.
  unfold zip2d. revert m2 d.
  induction m1 as [|r1 m1 IH]; intros [|r2 m2] [|rd d]; simpl; try done.
  f_equal; [|apply IH]. clear. revert r2 rd.
  induction r1 as [|b1 r1 IH]; intros [|b2 r2] [|v rd]; simpl; try done.
  f_equal; [|apply IH]. by destruct b1, b2.
Qed.

Lemma zip2d_orb_diag (m : list (list bool)) : zip2d orb m m = m.
Proof.
  unfold zip2d. induction m as [|r m IH]; simpl; [done|]. f_equal; [|done].
  clear. induction r as [|b r IH]; simpl; [done|]. f_equal; [|done]. by destruct b.
Qed.

Lemma blank_idem m f : blank m (blank m f) = blank m f.
Proof. unfold blank. simpl. by rewrite zip2d_assign_twice, zip2d_orb_diag. Qed.

Lemma blank_shape m f :
  shape (ma_data f) = shape m -> shape (ma_data (blank m f)) = shape m.
Proof. intros H. simpl. rewrite shape_zip2d; done. Qed.

Lemma body_one_mask m : blanks_field m (fun field => data_setitem field m nan).
Proof.
  intros name r f Hf Hs. by rewrite (data_setitem_ok _ _ _ _ _ Hf).
Qed.

Lemma body_two_masks over under :
  shape over = shape under ->
  blanks_field (zip2d orb over under)
    (fun field => data_setitem field over nan;; data_setitem field under nan).
Proof.
  intros Hou name r f Hf Hs. rewrite shape_zip2d in Hs by done.
  rewrite bind_run, (data_setitem_ok _ _ _ _ _ Hf) by congruence.
  erewrite data_setitem_ok; [|apply with_data_lookup|].
  2:{ cbn [ma_data]. rewrite shape_zip2d; congruence. }
  cbn [ma_data]. rewrite with_data_twice by done.
  by rewrite zip2d_assign_twice.
Qed.

Lemma body_try m body cls handler :
  blanks_field m body ->
  blanks_field m (fun field => try_except (body field) cls (handler field)).
Proof. intros H name r f Hf Hs. eapply try_except_ok. by apply H. Qed.

Lemma for_each_blanks m body :
  blanks_field m body ->
  forall names r, listed (shape m) names r ->
    exists r', for_each names body r = (inr tt, r') /\ blanked m names r r'.
Proof.
  intros Hbody names. induction names as [|x names IH]; intros r Hl.
  - exists r. split; [done|]. split; [|done]. intros name.
    rewrite decide_False; [done|]. apply not_elem_of_nil.
  - destruct (Hl x) as (f & Hf & Hs); [left|].
    destruct (IH (set_fields r (<[x := blank m f]> (fields r)))) as (r' & Hrun & Hb).
    { intros name Hin. simpl. destruct (decide (name = x)) as [->|Hne].
      - rewrite lookup_insert_eq. eexists. split; [done|]. by apply blank_shape.
      - rewrite lookup_insert_ne by done. apply Hl. by right. }
    exists r'. split.
    { simpl. rewrite bind_run, (Hbody _ _ _ Hf Hs). exact Hrun. }
    destruct Hb as (Hfs & ? & ? & ? & ?). split; [|done].
    intros name. rewrite Hfs. simpl.
    destruct (decide (name = x)) as [->|Hne].
    + rewrite lookup_insert_eq, Hf, (decide_True (P := x ∈ x :: names)) by left.
      simpl. rewrite blank_idem. by destruct (decide (x ∈ names)).
    + rewrite lookup_insert_ne by done.
      destruct (decide (name ∈ names)) as [Hin|Hnin].
      * rewrite decide_True; [done|by right].
      * rewrite decide_False; [done|]. rewrite elem_of_cons. tauto.
Qed.

Lemma blanked_gate m names r r' name i j b v :
  blanked m names r r' -> name ∈ names ->
  gate m i j = Some b -> field_gate r name i j = Some v ->
  field_gate r' name i j = Some (if b then nan else v).
Proof.
  intros (Hfs & _) Hin Hm Hv. unfold field_gate in *. rewrite Hfs.
  rewrite decide_True by done.
  destruct (fields r !! name) as [f|]; simpl in *; [|done].
  by rewrite gate_zip2d, Hm, Hv.
Qed.


(** ** The noise filters *)

Ltac run_get H :=
  rewrite ?bind_run; rewrite (get_data_Some _ _ _ H); cbn iota beta.
Ltac run_miss H :=
  rewrite ?bind_run; rewrite (get_data_None _ _ H); cbn iota beta.

Lemma over_or_under lo hi d :
  zip2d orb (gt_scalar d hi) (lt_scalar d lo) = out_of_bounds lo hi d.
Proof. unfold gt_scalar, lt_scalar. by rewrite zip2d_map2d. Qed.

Lemma over_under_shape lo hi d : shape (gt_scalar d hi) = shape (lt_scalar d lo).
Proof. unfold gt_scalar, lt_scalar. by rewrite !shape_map2d. Qed.

(** The prelude of a filter that reads one array twice. *)
Lemma read_bounds name lo hi r f :
  fields r !! name = Some f ->
  (d ← get_data name;
   let over := gt_scalar d hi in
   d ← get_data name;
   let under := lt_scalar d lo in
   mret (over, under)) r
  = (inr (gt_scalar (ma_data f) hi, lt_scalar (ma_data f) lo), r).
Proof. intros H. run_get H. run_get H. reflexivity. Qed.

Lemma read_bounds_miss name lo hi r :
  fields r !! name = None ->
  (d ← get_data name;
   let over := gt_scalar d hi in
   d ← get_data name;
   let under := lt_scalar d lo in
   mret (over, under)) r
  = (inl (KeyError name), r).
Proof. intros H. run_miss H. reflexivity. Qed.

Lemma first_present_Some names r n :
  first_present names r = Some n -> n ∈ names /\ is_Some (fields r !! n).
Proof.
  induction names as [|x names IH]; simpl; [done|].
  destruct (fields r !! x) eqn:E.
  - intros [= <-]. split; [left|by rewrite E].
  - intros H. destruct (IH H). split; [by right|done].
Qed.

Section Filters.
Variables (names : list string) (lo hi : float) (r : Radar).

(** The loop of the filters that blank by [over] and [under]. *)
Lemma loop_over_under body d :
  blanks_field (zip2d orb (gt_scalar d hi) (lt_scalar d lo)) body ->
  listed (shape d) names r ->
  exists r', for_each names body r = (inr tt, r') /\
             blanked (out_of_bounds lo hi d) names r r'.
Proof.
  rewrite over_or_under. intros Hb Hl. apply for_each_blanks; [done|].
  unfold out_of_bounds. by rewrite shape_map2d.
Qed.

Lemma removeNoiseZ_primary f :
  fields r !! "reflectivity" = Some f -> listed (shape (ma_data f)) names r ->
  exists r', removeNoiseZ names lo hi r = (inr tt, r') /\
             blanked (out_of_bounds lo hi (ma_data f)) names r r'.
Proof.
  intros Hf Hl. unfold removeNoiseZ. rewrite bind_run.
  unfold try_except at 1. rewrite (read_bounds _ _ _ _ _ Hf).
  apply loop_over_under; [|done].
  apply body_try, body_two_masks, over_under_shape.
Qed.

Lemma removeNoiseZ_fallback fh fv :
  fields r !! "reflectivity" = None ->
  fields r !! "DBZH" = Some fh -> fields r !! "DBZV" = Some fv ->
  shape (ma_data fh) = shape (ma_data fv) ->
  listed (shape (ma_data fh)) names r ->
  exists r', removeNoiseZ names lo hi r = (inr tt, r') /\
    blanked (zip2d orb (gt_scalar (ma_data fh) hi) (lt_scalar (ma_data fv) lo))
      names r r'.
Proof.
  intros Hz Hh Hv Hs Hl. unfold removeNoiseZ. rewrite bind_run.
  unfold try_except at 1. rewrite (read_bounds_miss _ _ _ _ Hz).
  cbn [is_KeyError]. run_get Hh. run_get Hv.
  assert (shape (gt_scalar (ma_data fh) hi) = shape (lt_scalar (ma_data fv) lo))
    as Hou by (unfold gt_scalar, lt_scalar; by rewrite !shape_map2d).
  apply for_each_blanks.
  - by apply body_try, body_two_masks.
  - rewrite shape_zip2d by done. unfold lt_scalar.
    by rewrite shape_map2d, <- Hs.
Qed.

Lemma removeNoiseZ_no_DBZH :
  fields r !! "reflectivity" = None -> fields r !! "DBZH" = None ->
  removeNoiseZ names lo hi r = (inl (KeyError "DBZH"), r).
Proof.
  intros Hz Hh. unfold removeNoiseZ. rewrite bind_run.
  unfold try_except at 1. rewrite (read_bounds_miss _ _ _ _ Hz).
  cbn [is_KeyError]. by run_miss Hh.
Qed.

Lemma removeNoiseZ_no_DBZV fh :
  fields r !! "reflectivity" = None -> fields r !! "DBZH" = Some fh ->
  fields r !! "DBZV" = None ->
  removeNoiseZ names lo hi r = (inl (KeyError "DBZV"), r).
Proof.
  intros Hz Hh Hv. unfold removeNoiseZ. rewrite bind_run.
  unfold try_except at 1. rewrite (read_bounds_miss _ _ _ _ Hz).
  cbn [is_KeyError]. run_get Hh. by run_miss Hv.
Qed.

Lemma removeNoiseZdr_run f :
  fields r !! "differential_reflectivity" = Some f ->
  listed (shape (ma_data f)) names r ->
  exists r', removeNoiseZdr names lo hi r = (inr tt, r') /\
             blanked (out_of_bounds lo hi (ma_data f)) names r r'.
Proof.
  intros Hf Hl. unfold removeNoiseZdr. run_get Hf. run_get Hf.
  apply loop_over_under; [|done]. apply body_two_masks, over_under_shape.
Qed.

Lemma removeNoiseNCP_run f :
  fields r !! "normalized_coherent_power" = Some f ->
  listed (shape (ma_data f)) names r ->
  exists r', removeNoiseNCP names lo hi r = (inr tt, r') /\
             blanked (out_of_bounds lo hi (ma_data f)) names r r'.
Proof.
  intros Hf Hl. unfold removeNoiseNCP. run_get Hf. run_get Hf.
  apply loop_over_under; [|done].
  apply body_try, body_two_masks, over_under_shape.
Qed.

(** The nested [try] of [removeNoiseRhoHV] reads the first name of the
    chain that exists. *)
Lemma removeNoiseRhoHV_run n f :
  first_present (chain NoiseRhoHV) r = Some n -> fields r !! n = Some f ->
  listed (shape (ma_data f)) names r ->
  exists r', removeNoiseRhoHV names lo hi r = (inr tt, r') /\
             blanked (out_of_bounds lo hi (ma_data f)) names r r'.
Proof.
  intros Hn Hf Hl. unfold removeNoiseRhoHV. rewrite bind_run.
  assert (forall body : string -> Py Radar unit,
    blanks_field (zip2d orb (gt_scalar (ma_data f) hi) (lt_scalar (ma_data f) lo)) body ->
    exists r', for_each names body r = (inr tt, r') /\
               blanked (out_of_bounds lo hi (ma_data f)) names r r') as Hloop
    by (intros; by apply loop_over_under).
  simpl in Hn. unfold try_except at 1.
  destruct (fields r !! "cross_correlation_ratio") as [f1|] eqn:H1.
  { injection Hn as <-. rewrite (read_bounds _ _ _ _ _ H1).
    assert (f = f1) as -> by congruence.
    apply Hloop, body_try, body_two_masks, over_under_shape. }
  rewrite (read_bounds_miss _ _ _ _ H1). cbn [is_KeyError].
  unfold try_except at 1.
  destruct (fields r !! "RHOHV") as [f2|] eqn:H2.
  { injection Hn as <-. rewrite (read_bounds _ _ _ _ _ H2).
    assert (f = f2) as -> by congruence.
    apply Hloop, body_try, body_two_masks, over_under_shape. }
  rewrite (read_bounds_miss _ _ _ _ H2). cbn [is_KeyError].
  destruct (fields r !! "correlation_coefficient") as [f3|] eqn:H3; [|done].
  injection Hn as <-. rewrite (read_bounds _ _ _ _ _ H3).
  assert (f = f3) as -> by congruence.
  apply Hloop, body_try, body_two_masks, over_under_shape.
Qed.

Lemma removeNoiseRhoHV_none :
  first_present (chain NoiseRhoHV) r = None ->
  removeNoiseRhoHV names lo hi r = (inl (KeyError "correlation_coefficient"), r).
Proof.
  simpl. intros Hn. unfold removeNoiseRhoHV. rewrite bind_run.
  destruct (fields r !! "cross_correlation_ratio") eqn:H1; [done|].
  destruct (fields r !! "RHOHV") eqn:H2; [done|].
  destruct (fields r !! "correlation_coefficient") eqn:H3; [done|].
  unfold try_except. rewrite (read_bounds_miss _ _ _ _ H1). cbn [is_KeyError].
  rewrite (read_bounds_miss _ _ _ _ H2). cbn [is_KeyError].
  by rewrite (read_bounds_miss _ _ _ _ H3).
Qed.

Lemma removeNoisePhiDP_run n f :
  first_present (chain NoisePhiDP) r = Some n -> fields r !! n = Some f ->
  listed (shape (ma_data f)) names r ->
  exists r', removeNoisePhiDP names lo hi r = (inr tt, r') /\
             blanked (out_of_bounds lo hi (ma_data f)) names r r'.
Proof.
  intros Hn Hf Hl. unfold removeNoisePhiDP. rewrite bind_run.
  simpl in Hn. unfold try_except at 1.
  destruct (fields r !! "PHIDP") as [f1|] eqn:H1.
  { injection Hn as <-. rewrite (read_bounds _ _ _ _ _ H1).
    assert (f = f1) as -> by congruence.
    apply loop_over_under; [|done].
    apply body_try, body_two_masks, over_under_shape. }
  rewrite (read_bounds_miss _ _ _ _ H1). cbn [is_KeyError].
  destruct (fields r !! "specific_differential_phase") as [f2|] eqn:H2; [|done].
  injection Hn as <-. rewrite (read_bounds _ _ _ _ _ H2).
  assert (f = f2) as -> by congruence.
  apply loop_over_under; [|done].
  apply body_try, body_two_masks, over_under_shape.
Qed.

Lemma removeNoisePhiDP_none :
  first_present (chain NoisePhiDP) r = None ->
  removeNoisePhiDP names lo hi r =
  (inl (KeyError "specific_differential_phase"), r).
Proof.
  simpl. intros Hn. unfold removeNoisePhiDP. rewrite bind_run.
  destruct (fields r !! "PHIDP") eqn:H1; [done|].
  destruct (fields r !! "specific_differential_phase") eqn:H2; [done|].
  unfold try_except. rewrite (read_bounds_miss _ _ _ _ H1). cbn [is_KeyError].
  by rewrite (read_bounds_miss _ _ _ _ H2).
Qed.

Lemma removeNoiseSNR_run f :
  fields r !! "snr" = Some f -> listed (shape (ma_data f)) names r ->
  exists r', removeNoiseSNR names lo hi r = (inr tt, r') /\
             blanked (blank_mask NoiseSNR lo hi (ma_data f)) names r r'.
Proof.
  intros Hf Hl. unfold removeNoiseSNR. run_get Hf. run_get Hf.
  rewrite bind_run. unfold lift, logical_and, lt_scalar, gt_scalar.
  rewrite decide_True by (by rewrite !shape_map2d).
  rewrite zip2d_map2d. unfold invert. rewrite map2d_map2d.
  apply for_each_blanks.
  - apply body_try, body_one_mask.
  - unfold blank_mask. by rewrite shape_map2d.
Qed.

(** Every filter, driven by the first name of its chain that exists. *)
Lemma run_filter_blanked F n f :
  first_present (chain F) r = Some n -> fields r !! n = Some f ->
  listed (shape (ma_data f)) names r ->
  exists r', run_filter F names lo hi r = (inr tt, r') /\
             blanked (blank_mask F lo hi (ma_data f)) names r r'.
Proof.
  intros Hn Hf Hl. destruct F; simpl run_filter; simpl blank_mask;
    try (by eapply removeNoiseRhoHV_run); try (by eapply removeNoisePhiDP_run);
    simpl in Hn; destruct (fields r !! _) as [f'|] eqn:E in Hn; try done;
    injection Hn as <-; assert (f = f') as -> by congruence.
  - by apply removeNoiseZ_primary.
  - by apply removeNoiseZdr_run.
  - by apply removeNoiseNCP_run.
  - by apply removeNoiseSNR_run.
Qed.

(** A filter other than [removeNoiseZ] raises the [KeyError] of the last
    name of its chain when no name of the chain exists. *)
Lemma run_filter_none F :
  F <> NoiseZ -> first_present (chain F) r = None ->
  run_filter F names lo hi r = (inl (KeyError (List.last (chain F) "")), r).
Proof.
  intros HF Hn. destruct F; try done; simpl run_filter; simpl List.last;
    try (by apply removeNoiseRhoHV_none); try (by apply removeNoisePhiDP_none);
    simpl in Hn; destruct (fields r !! _) eqn:E in Hn; try done.
  - unfold removeNoiseZdr. by run_miss E.
  - unfold removeNoiseNCP. by run_miss E.
  - unfold removeNoiseSNR. by run_miss E.
Qed.
End Filters.


(** [|x| < c] is [x < c] and [-c < x], for a positive finite [c]. *)
Lemma SFltb_abs (x : spec_float) (m : positive) (e : Z) :
  SFltb (SFabs x) (S754_finite false m e) =
  SFltb x (S754_finite false m e) && SFltb (S754_finite true m e) x.
Proof.
  unfold SFltb.
  destruct x as [s|s| |s mx ex]; try (destruct s); try reflexivity; simpl;
    change (Pos.compare_cont Eq ?a ?b) with (Pos.compare a b).
  - rewrite (Z.compare_antisym ex e), (Pos.compare_antisym mx m).
    destruct (ex ?= e)%Z; simpl; try reflexivity.
    by destruct (mx ?= m)%positive.
  - destruct (ex ?= e)%Z; simpl; try reflexivity.
    by destruct (mx ?= m)%positive.
Qed.

Lemma abs_lt_fifth (v : float) :
  (abs v <? 0x1.999999999999ap-3)%float =
  (v <? 0x1.999999999999ap-3)%float && (- 0x1.999999999999ap-3 <? v)%float.
Proof.
  rewrite !ltb_spec, abs_spec.
  replace (Prim2SF 0x1.999999999999ap-3)
    with (S754_finite false 7205759403792794 (-55)) by (vm_compute; reflexivity).
  replace (Prim2SF (- 0x1.999999999999ap-3))
    with (S754_finite true 7205759403792794 (-55)) by (vm_compute; reflexivity).
  apply SFltb_abs.
Qed.

Lemma nan_neq (x : float) : is_nan x = false -> nan <> x.
Proof. intros H <-. discriminate H. Qed.


Lemma polarimetric_listed :
  listed [3%nat] ["reflectivity"; "snr"]%string polarimetric_radar.
Proof.
  intros name Hin.
  repeat (apply elem_of_cons in Hin as [->|Hin]); [| |by apply elem_of_nil in Hin];
    eexists; (split; [reflexivity|reflexivity]).
Defined.




(** ** [removeNoiseZ] without a ['reflectivity'] field *)

(** C3: evaluation at a volume that names its reflectivities [DBZH] and
    [DBZV].  With bounds [0, 30] the filter blanks gate 0, where [DBZH] is 10
    and inside the bounds, keeps gate 1, where [DBZH] is -50 and outside
    them, and blanks gate 2, where [DBZV] is 10 and inside them: the upper
    bound is tested on [DBZH] and the lower bound on [DBZV], so neither
    array alone decides which gates are blanked. *)
Theorem removeNoiseZ_fallback_mixes_fields :
  exists r',
    removeNoiseZ ["DBZH"; "DBZV"]%string 0%float 30%float dual_pol_radar
      = (inr tt, r') /\
    ma_data <$> fields r' !! "DBZH" = Some [[nan; -50; nan]]%float /\
    ma_data <$> fields r' !! "DBZV" = Some [[nan; 10; nan]]%float.
Proof. eexists. split; [vm_compute; reflexivity|]. split; reflexivity. Qed.

(** ** [removeMountainClutter] *)


Lemma polarimetric_listed_all :
  listed [3%nat] ["reflectivity"; "snr"; "dealiased_velocity"]%string
    polarimetric_radar.
Proof.
  intros name Hin.
  repeat (apply elem_of_cons in Hin as [->|Hin]);
    try (by apply elem_of_nil in Hin);
    eexists; (split; [reflexivity|reflexivity]).
Defined.


(** The clutter gate of the sample volume, evaluated. *)
Example removeMountainClutter_sample :
  exists r',
    removeMountainClutter ["reflectivity"; "snr"]%string polarimetric_radar
      = (inr tt, r') /\
    ma_data <$> fields r' !! "reflectivity" = Some [[5; nan; 45]]%float /\
    ma_data <$> fields r' !! "snr" = Some [[1; nan; 3]]%float.
Proof. eexists. split; [vm_compute; reflexivity|]. split; reflexivity. Qed.

(** ** [fix_CHILL_PPI_sweep_start_end] *)

(** C7: whatever the volume, [fix_CHILL_PPI_sweep_start_end] returns with
    the six fixed start indices and the six fixed end indices, and with the
    fields and every other attribute of the volume as they were. *)
Theorem fix_CHILL_PPI_sweep_start_end_fixed (r : Radar) :
  exists r',
    fix_CHILL_PPI_sweep_start_end r = (inr tt, r') /\
    sweep_start_ray_index r' = [0; 382; 789; 1208; 1604; 2027] /\
    sweep_end_ray_index r' = [381; 788; 1176; 1567; 1993; 2428] /\
    fields r' = fields r /\ metadata r' = metadata r /\ nsweeps r' = nsweeps r.
Proof. eexists. split; [reflexivity|]. by repeat split. Qed.

(** ** [PPI_fixfilename] *)

Lemma py_slice_inside {A : Type} (pre mid post : list A) :
  py_slice (pre ++ mid ++ post) (Some (Z.of_nat (length pre)))
    (Some (Z.of_nat (length pre + length mid))) = mid.
Proof.
  unfold py_slice, slice_index. rewrite !length_app.
  destruct (Z.ltb_spec (Z.of_nat (length pre)) 0); [lia|].
  destruct (Z.ltb_spec (Z.of_nat (length pre + length mid)) 0); [lia|].
  rewrite !Z.min_l by lia. rewrite !Nat2Z.id.
  rewrite drop_app_length.
  replace (length pre + length mid - length pre)%nat with (length mid) by lia.
  by rewrite take_app_length.
Qed.

Lemma starts_with_app (p s : str) : starts_with p (p ++ s) = true.
Proof. induction p as [|a p IH]; simpl; [done|]. by rewrite decide_True. Qed.

(** Where [old] does not occur, [replace_from] only passes over the
    characters it still has to skip. *)
Lemma replace_from_absent (old new s : str) (i k : nat) :
  occurrences_from old i s = [] -> replace_from old new k s = drop k s.
Proof.
  revert i k. induction s as [|c s IH]; intros i k; simpl.
  - by destruct k.
  - destruct (starts_with old (c :: s)) eqn:E; [done|]. simpl. intros H.
    destruct k as [|k]; simpl.
    + by rewrite (IH _ 0%nat H), drop_0.
    + by apply (IH (S i)).
Qed.

(** A single occurrence of a non-empty [old] is replaced where it stands. *)
Lemma replace_from_single (old new pre tail : str) (i : nat) :
  old <> [] ->
  occurrences_from old i (pre ++ old ++ tail) = [(i + length pre)%nat] ->
  replace_from old new 0 (pre ++ old ++ tail) = pre ++ new ++ tail.
Proof.
  intros Hold. revert i. induction pre as [|c pre IH]; intros i Hocc.
  - destruct old as [|a old]; [done|]. simpl in *.
    rewrite decide_True, starts_with_app in * by done. simpl in Hocc.
    injection Hocc as _ Hocc. rewrite Nat.sub_0_r.
    rewrite (replace_from_absent _ _ _ _ _ Hocc).
    by rewrite drop_app_length.
  - simpl in *. destruct (starts_with old (c :: pre ++ old ++ tail)) eqn:E.
    + simpl in Hocc. injection Hocc as Hi _. lia.
    + simpl in Hocc. f_equal. apply (IH (S i)). rewrite Hocc. f_equal. lia.
Qed.

Lemma replace_single (old new pre tail : str) :
  old <> [] ->
  occurrences_from old 0 (pre ++ old ++ tail) = [length pre] ->
  replace (pre ++ old ++ tail) old new = pre ++ new ++ tail.
Proof.
  intros Hold Hocc. destruct old as [|a old'] eqn:E; [done|].
  unfold replace. rewrite <- E in *. by apply (replace_from_single _ _ _ _ 0%nat).
Qed.

Lemma replace_absent (old new s : str) :
  old <> [] -> occurrences_from old 0 s = [] -> replace s old new = s.
Proof.
  intros Hold Hocc. destruct old as [|a old'] eqn:E; [done|].
  unfold replace. rewrite <- E in *.
  by rewrite (replace_from_absent _ _ _ _ _ Hocc), drop_0.
Qed.

Lemma py_slice_at (pre rest : str) (k : nat) :
  (k <= length rest)%nat ->
  py_slice (pre ++ rest) (Some (Z.of_nat (length pre)))
    (Some (Z.of_nat (length pre + k))) = take k rest.
Proof.
  intros Hk.
  pose proof (py_slice_inside pre (take k rest) (drop k rest)) as H.
  by rewrite take_drop, length_take_le in H.
Qed.

(** The three slices [PPI_fixfilename] takes of a name of 17 characters or
    more: they start 17 characters before its end. *)
Lemma fixed_position_slice (pre rest : str) (k : nat) :
  length rest = 17%nat -> (k <= 17)%nat ->
  py_slice (pre ++ rest) (Some (Z.of_nat (length (pre ++ rest)) - 17))
    (Some (Z.of_nat (length (pre ++ rest)) - 17 + Z.of_nat k)) = take k rest.
Proof.
  intros Hr Hk. rewrite length_app, Hr.
  replace (Z.of_nat (length pre + 17) - 17) with (Z.of_nat (length pre)) by lia.
  replace (Z.of_nat (length pre) + Z.of_nat k)
    with (Z.of_nat (length pre + k)) by lia.
  apply py_slice_at. lia.
Qed.

(** A name that does not carry ['s0'] at the tested position is returned
    as it is. *)
Lemma PPI_fixfilename_skips (filename : str) :
  tested_slice filename <> "s0" -> PPI_fixfilename filename = filename.
Proof.
  unfold tested_slice, PPI_fixfilename. intros H. by rewrite decide_False.
Qed.



(** Names shorter than 17 characters, evaluated: the empty name, a name
    whose negative bounds wrap around to an ['s0'], and one for which the
    chopped text is empty, so that ['SUR_'] is inserted around every
    character. *)
Example PPI_fixfilename_short :
  PPI_fixfilename "" = "" /\
  PPI_fixfilename "012s056789" = "012SUR_056789" /\
  PPI_fixfilename "abcdes0hijk"
  = "SUR_aSUR_bSUR_cSUR_dSUR_eSUR_sSUR_0SUR_hSUR_iSUR_jSUR_kSUR_".
Proof. repeat split; vm_compute; reflexivity. Qed.

(** The last character [l[-1:]] of a text of 11 characters. *)
Lemma last_of_eleven (l : str) :
  length l = 11%nat -> py_slice l (Some (-1)) None = drop 10 l.
Proof. intros H. unfold py_slice, slice_index. rewrite H. simpl. by rewrite take_ge by (rewrite length_drop; lia). Qed.

Lemma drop_10_lookup (l : str) (c : ascii) :
  length l = 11%nat -> (drop 10 l = [c] <-> l !! 10%nat = Some c).
Proof.
  intros H. do 12 (destruct l as [|? l]; try discriminate H).
  simpl. split; congruence.
Qed.



(** The twelve-character case, evaluated. *)
Example PPI_fixfilename_long_segment :
  PPI_fixfilename "rose_s0_20150810712.nc" = "rose_SUR_12.nc".
Proof. vm_compute. reflexivity. Qed.


(** ** [dealias] *)

Lemma get_metadata_Some key (s : dstate) v :
  metadata s.1 !! key = Some v -> get_metadata key s = (inr v, s).
Proof. unfold get_metadata. by intros ->. Qed.

Lemma read_first_ray name i (s : dstate) n :
  first_ray_count s.1 name i = Some n ->
  exists sweep row,
    get_slice i s = (inr sweep, s) /\
    first_ray_mask name sweep s = (inr row, s) /\
    count_unmasked row = n.
Proof.
  unfold first_ray_count, get_slice, first_ray_mask. intros H.
  destruct (sweep_start_ray_index s.1 !! i) as [a|]; [|done].
  destruct (sweep_end_ray_index s.1 !! i) as [b|]; [|done].
  exists (a, b + 1). simpl in *.
  destruct (fields s.1 !! name) as [f|]; [|done]. simpl in *.
  destruct (py_slice (ma_mask f) (Some a) (Some (b + 1))) as [|row rows];
    [done|]. simpl in *.
  exists row. repeat split. congruence.
Qed.

(** The loop of [dealias] collects the sweeps whose first ray has data. *)
Lemma scan_sweeps name (l acc : list nat) (s : dstate) :
  Forall (fun i => is_Some (first_ray_count s.1 name i)) l ->
  for_fold l acc (fun i good =>
    sweep ← get_slice i;
    row ← first_ray_mask name sweep;
    if bool_decide (count_unmasked row ≠ 0%nat)
    then mret (good ++ [i])
    else mret good) s
  = (inr (acc ++ filter (fun i => has_data s.1 name i = true) l), s).
Proof.
  revert acc. induction l as [|i l IH]; intros acc Hall; simpl.
  - by rewrite app_nil_r.
  - apply Forall_cons in Hall as [[n Hn] Hall].
    destruct (read_first_ray _ _ _ _ Hn) as (sweep & row & H1 & H2 & Hc).
    rewrite !bind_run, H1, bind_run, H2.
    assert (has_data s.1 name i = bool_decide (count_unmasked row ≠ 0%nat))
      as Hd.
    { unfold has_data. rewrite Hn, <- Hc. by destruct (count_unmasked row). }
    destruct (bool_decide (count_unmasked row ≠ 0%nat)).
    + rewrite filter_cons_True by done.
      unfold mret at 1, Py_ret. rewrite (IH _ Hall). by rewrite <- app_assoc.
    + rewrite filter_cons_False by (by rewrite Hd). by apply IH.
Qed.


Lemma uf_radar_readable :
  prefilters "UF" (Some 10%float) = true ->
  Forall (fun i => is_Some (first_ray_count uf_radar "velocity" i))
    (seq 0 (nsweeps uf_radar)) /\
  metadata (extract_sweeps sample_pyart uf_radar (good_sweeps uf_radar "velocity"))
    !! "original_container" = Some "UF".
Proof.
  intros _. split; [|reflexivity].
  repeat (apply List.Forall_cons; [eexists; reflexivity|]).
  apply List.Forall_nil.
Defined.



(** ** Missing field names *)

(** C6: the lookups of the filters.  A filter is driven by the first name
    of its chain that exists ([removeNoiseZ]: ['reflectivity'], and without
    it [DBZH] for the upper and [DBZV] for the lower bound); when no name of
    the chain exists the [KeyError] of the last lookup reaches the caller,
    with the volume untouched; and [removeNoiseZdr], [removeNoiseNCP],
    [removeNoiseSNR] and [set2range], which have a single name, raise the
    [KeyError] of that name. *)
Theorem missing_field_lookup (names : list string) (lo hi : float) (r : Radar) :
  (forall F n f,
     first_present (chain F) r = Some n -> fields r !! n = Some f ->
     listed (shape (ma_data f)) names r ->
     exists r', run_filter F names lo hi r = (inr tt, r') /\
                blanked (blank_mask F lo hi (ma_data f)) names r r') /\
  (forall fh fv,
     fields r !! "reflectivity" = None ->
     fields r !! "DBZH" = Some fh -> fields r !! "DBZV" = Some fv ->
     shape (ma_data fh) = shape (ma_data fv) ->
     listed (shape (ma_data fh)) names r ->
     exists r', removeNoiseZ names lo hi r = (inr tt, r') /\
       blanked (zip2d orb (gt_scalar (ma_data fh) hi) (lt_scalar (ma_data fv) lo))
         names r r') /\
  (fields r !! "reflectivity" = None -> fields r !! "DBZH" = None ->
   removeNoiseZ names lo hi r = (inl (KeyError "DBZH"), r)) /\
  (fields r !! "reflectivity" = None -> is_Some (fields r !! "DBZH") ->
   fields r !! "DBZV" = None ->
   removeNoiseZ names lo hi r = (inl (KeyError "DBZV"), r)) /\
  (forall F,
     F <> NoiseZ -> first_present (chain F) r = None ->
     run_filter F names lo hi r = (inl (KeyError (List.last (chain F) "")), r)) /\
  (forall field,
     fields r !! field = None ->
     set2range field hi lo r = (inl (KeyError field), r)).
Proof.
  repeat split.
  - intros F n f. apply run_filter_blanked.
  - intros fh fv. apply removeNoiseZ_fallback.
  - apply removeNoiseZ_no_DBZH.
  - intros Hz [fh Hh]. by eapply removeNoiseZ_no_DBZV.
  - intros F. apply run_filter_none.
  - intros field H. unfold set2range. by run_miss H.
Qed.

(** The chain of [removeNoiseRhoHV], evaluated: a volume that only has
    [RHOHV] is filtered by it, and one with no name of the chain raises. *)
Example removeNoiseRhoHV_chain :
  (exists r',
     removeNoiseRhoHV ["RHOHV"]%string 0.5%float 1%float
       (mkRadar {[ "RHOHV" := unmasked [[0.25; 0.75; 2]]%float ]} ∅ 1 [0] [0])
     = (inr tt, r') /\
     ma_data <$> fields r' !! "RHOHV" = Some [[nan; 0.75; nan]]%float) /\
  removeNoiseRhoHV ["DBZH"]%string 0.5%float 1%float dual_pol_radar
  = (inl (KeyError "correlation_coefficient"), dual_pol_radar).
Proof.
  split; [eexists; split; [vm_compute; reflexivity|reflexivity]|].
  vm_compute. reflexivity.
Qed.

(** * Further properties *)

(** ** More on IEEE comparisons *)

Lemma SFcompare_Lt_Eq x y z :
  SFcompare x y = Some Lt -> SFcompare y z = Some Eq -> SFcompare x z = Some Lt.
Proof.
  destruct x as [sx|sx| |sx mx ex], y as [sy|sy| |sy my ey],
           z as [sz|sz| |sz mz ez]; simpl; try discriminate;
    try (destruct sx); try (destruct sy); try (destruct sz);
    simpl; try discriminate; try reflexivity.
  all: change (Pos.compare_cont Eq ?a ?b) with (Pos.compare a b);
    destruct (Z.compare_spec ex ey), (Z.compare_spec ey ez),
      (Z.compare_spec ex ez); try discriminate; try reflexivity; try lia;
    destruct (Pos.compare_spec mx my), (Pos.compare_spec my mz),
      (Pos.compare_spec mx mz); simpl; try discriminate; try reflexivity; lia.
Qed.

Lemma SFcompare_defined x y :
  x <> S754_nan -> y <> S754_nan -> exists c, SFcompare x y = Some c.
Proof.
  destruct x as [sx|sx| |sx mx ex], y as [sy|sy| |sy my ey]; simpl;
    intros; try done; eauto.
Qed.

Lemma Prim2SF_not_nan (a : float) : is_nan a = false -> Prim2SF a <> S754_nan.
Proof.
  unfold is_nan. rewrite FloatAxioms.eqb_spec. unfold SFeqb. intros H E.
  rewrite E in H. discriminate H.
Qed.

(** A comparison with NaN is false. *)
Lemma ltb_nan_l (a : float) : (nan <? a)%float = false.
Proof. rewrite ltb_spec. reflexivity. Qed.

Lemma ltb_nan_r (a : float) : (a <? nan)%float = false.
Proof.
  rewrite ltb_spec. unfold SFltb.
  replace (Prim2SF nan) with S754_nan by reflexivity.
  by destruct (Prim2SF a) as [[]|[]| |[] ? ?].
Qed.

(** Two numbers are ordered one way or the other. *)
Lemma ltb_or_leb (a b : float) :
  is_nan a = false -> is_nan b = false ->
  (a <? b)%float = true \/ (b <=? a)%float = true.
Proof.
  intros Ha Hb. rewrite ltb_spec, leb_spec. unfold SFltb, SFleb.
  destruct (SFcompare_defined (Prim2SF a) (Prim2SF b)) as [c Hc];
    [by apply Prim2SF_not_nan..|].
  rewrite Hc, (FloatOrder.SFcompare_antisym _ _ _ Hc).
  destruct c; simpl; auto.
Qed.

Lemma ltb_leb_trans (a b c : float) :
  (a <? b)%float = true -> (b <=? c)%float = true -> (a <? c)%float = true.
Proof.
  rewrite !ltb_spec, leb_spec. unfold SFltb, SFleb. intros H1 H2.
  destruct (SFcompare (Prim2SF a) (Prim2SF b)) as [[]|] eqn:E1; try discriminate.
  destruct (SFcompare (Prim2SF b) (Prim2SF c)) as [[]|] eqn:E2; try discriminate.
  - by rewrite (SFcompare_Lt_Eq _ _ _ E1 E2).
  - by rewrite (FloatOrder.SFcompare_Lt_trans _ _ _ E1 E2).
Qed.

Lemma ltb_trans (a b c : float) :
  (a <? b)%float = true -> (b <? c)%float = true -> (a <? c)%float = true.
Proof.
  rewrite !ltb_spec. unfold SFltb. intros H1 H2.
  destruct (SFcompare (Prim2SF a) (Prim2SF b)) as [[]|] eqn:E1; try discriminate.
  destruct (SFcompare (Prim2SF b) (Prim2SF c)) as [[]|] eqn:E2; try discriminate.
  by rewrite (FloatOrder.SFcompare_Lt_trans _ _ _ E1 E2).
Qed.

Lemma ltb_leb (a b : float) : (a <? b)%float = true -> (a <=? b)%float = true.
Proof.
  rewrite ltb_spec, leb_spec. unfold SFltb, SFleb.
  by destruct (SFcompare (Prim2SF a) (Prim2SF b)) as [[]|].
Qed.

Lemma not_ltb_leb (a b : float) :
  is_nan a = false -> is_nan b = false ->
  (a <? b)%float = false -> (b <=? a)%float = true.
Proof.
  intros Ha Hb H. destruct (ltb_or_leb a b Ha Hb); congruence.
Qed.

Lemma leb_not_nan (a b : float) :
  (a <=? b)%float = true -> is_nan a = false /\ is_nan b = false.
Proof.
  unfold is_nan. rewrite leb_spec, !FloatAxioms.eqb_spec. unfold SFleb, SFeqb.
  destruct (Prim2SF a) as [[]|[]| |[] ma ea], (Prim2SF b) as [[]|[]| |[] mb eb];
    simpl; try done; intros _;
    rewrite ?Z.compare_refl; simpl;
    change (Pos.compare_cont Eq ?x ?y) with (Pos.compare x y);
    rewrite ?Pos.compare_refl; done.
Qed.

(** ** What the noise filters leave alone *)



(** ** Driving values that are NaN, and bounds in the wrong order *)


Lemma gappy_listed : listed [3%nat] ["reflectivity"]%string gappy_radar.
Proof.
  intros name Hin. apply list_elem_of_singleton in Hin as ->.
  eexists. split; reflexivity.
Defined.





(** ** A listed field that is missing or has another shape *)

Lemma data_setitem_missing name m x r :
  fields r !! name = None -> data_setitem name m x r = (inl (KeyError name), r).
Proof. unfold data_setitem. by intros ->. Qed.

Lemma data_setitem_mismatch name m x r f :
  fields r !! name = Some f -> shape m <> shape (ma_data f) ->
  data_setitem name m x r = (inl IndexError, r).
Proof.
  unfold data_setitem, setitem_bool. intros -> Hs. by rewrite decide_False.
Qed.

Lemma try_except_passes {S A : Type} (body handler : Py S A) cls s e s' :
  body s = (inl e, s') -> cls e = false ->
  try_except body cls handler s = (inl e, s').
Proof. unfold try_except. by intros -> ->. Qed.

Lemma one_mask_missing m : raises_on_missing (fun field => data_setitem field m nan).
Proof. intros name r H. by apply data_setitem_missing. Qed.

Lemma two_masks_missing over under :
  raises_on_missing
    (fun field => data_setitem field over nan;; data_setitem field under nan).
Proof. intros name r H. by rewrite bind_run, data_setitem_missing. Qed.

Lemma one_mask_mismatch m :
  raises_on_mismatch m (fun field => data_setitem field m nan).
Proof. intros name r f H Hs. by eapply data_setitem_mismatch. Qed.

Lemma two_masks_mismatch over under :
  shape over = shape under ->
  raises_on_mismatch (zip2d orb over under)
    (fun field => data_setitem field over nan;; data_setitem field under nan).
Proof.
  intros Hou name r f H Hs. rewrite shape_zip2d in Hs by done.
  rewrite bind_run. erewrite data_setitem_mismatch; [done..|congruence].
Qed.

Lemma try_missing body cls handler :
  (forall key, cls (KeyError key) = false) ->
  raises_on_missing body ->
  raises_on_missing (fun field => try_except (body field) cls (handler field)).
Proof. intros Hc Hb name r H. eapply try_except_passes; [by apply Hb|done]. Qed.

Lemma try_mismatch m body cls handler :
  cls IndexError = false ->
  raises_on_mismatch m body ->
  raises_on_mismatch m
    (fun field => try_except (body field) cls (handler field)).
Proof. intros Hc Hb name r f H Hs. eapply try_except_passes; [by eapply Hb|done]. Qed.

(** A loop that meets a missing name stops there, with the fields listed
    before it already blanked. *)
Lemma for_each_app {S A : Type} (l1 l2 : list A) (body : A -> Py S unit) s s1 :
  for_each l1 body s = (inr tt, s1) ->
  for_each (l1 ++ l2) body s = for_each l2 body s1.
Proof.
  revert s. induction l1 as [|x l1 IH]; intros s; simpl.
  - by intros [= ->].
  - rewrite !bind_run. destruct (body x s) as [[e|[]] s']; [done|]. apply IH.
Qed.

Lemma blanked_lookup_fresh m names r r' name :
  blanked m names r r' -> name ∉ names ->
  fields r' !! name = fields r !! name.
Proof. intros (Hfs & _) H. by rewrite Hfs, decide_False. Qed.

Lemma blanked_lookup_None m names r r' name :
  blanked m names r r' -> fields r !! name = None -> fields r' !! name = None.
Proof. intros (Hfs & _) H. rewrite Hfs, H. by destruct (decide _). Qed.

(** Every filter is a loop, over the listed names, of a body that blanks by
    the filter's mask and raises on a faulty listed name. *)
Lemma run_filter_as_loop (F : noise_filter) (r : Radar) (lo hi : float)
    (driver : string) (fd : masked_array) :
  first_present (chain F) r = Some driver ->
  fields r !! driver = Some fd ->
  exists body,
    (forall names, run_filter F names lo hi r = for_each names body r) /\
    blanks_field (blank_mask F lo hi (ma_data fd)) body /\
    raises_on_missing body /\
    raises_on_mismatch (blank_mask F lo hi (ma_data fd)) body.
Proof.
  intros Hn Hf.
  assert (forall cls,
    (forall key, cls (KeyError key) = false) -> cls IndexError = false ->
    let body := fun field =>
      try_except
        (data_setitem field (gt_scalar (ma_data fd) hi) nan;;
         data_setitem field (lt_scalar (ma_data fd) lo) nan) cls
        (ma_setitem_None field (gt_scalar (ma_data fd) hi);;
         ma_setitem_None field (lt_scalar (ma_data fd) lo)) in
    blanks_field (out_of_bounds lo hi (ma_data fd)) body /\
    raises_on_missing body /\
    raises_on_mismatch (out_of_bounds lo hi (ma_data fd)) body) as Htry.
  { intros cls Hk Hi. rewrite <- over_or_under. repeat split.
    - apply body_try, body_two_masks, over_under_shape.
    - by apply try_missing, two_masks_missing.
    - by apply try_mismatch, two_masks_mismatch, over_under_shape. }
  destruct F; simpl in Hn; simpl blank_mask; simpl run_filter.
  - (* removeNoiseZ *)
    destruct (fields r !! "reflectivity") as [f'|] eqn:E; [|done].
    injection Hn as <-. assert (fd = f') as <- by congruence.
    eexists. split; [|by apply (Htry is_NotImplementedError)].
    intros names. unfold removeNoiseZ. rewrite bind_run.
    unfold try_except at 1. by rewrite (read_bounds _ _ _ _ _ E).
  - (* removeNoiseZdr *)
    destruct (fields r !! "differential_reflectivity") as [f'|] eqn:E; [|done].
    injection Hn as <-. assert (fd = f') as <- by congruence.
    exists (fun field =>
              data_setitem field (gt_scalar (ma_data fd) hi) nan;;
              data_setitem field (lt_scalar (ma_data fd) lo) nan).
    rewrite <- over_or_under. split; [|split; [|split]].
    + intros names. unfold removeNoiseZdr. run_get E. run_get E. reflexivity.
    + apply body_two_masks, over_under_shape.
    + apply two_masks_missing.
    + apply two_masks_mismatch, over_under_shape.
  - (* removeNoiseRhoHV *)
    eexists. split; [|by apply (Htry is_NotImplementedError)].
    intros names. unfold removeNoiseRhoHV. rewrite bind_run.
    unfold try_except at 1.
    destruct (fields r !! "cross_correlation_ratio") as [f1|] eqn:H1.
    { injection Hn as <-. assert (fd = f1) as <- by congruence.
      by rewrite (read_bounds _ _ _ _ _ H1). }
    rewrite (read_bounds_miss _ _ _ _ H1). cbn [is_KeyError].
    unfold try_except at 1.
    destruct (fields r !! "RHOHV") as [f2|] eqn:H2.
    { injection Hn as <-. assert (fd = f2) as <- by congruence.
      by rewrite (read_bounds _ _ _ _ _ H2). }
    rewrite (read_bounds_miss _ _ _ _ H2). cbn [is_KeyError].
    destruct (fields r !! "correlation_coefficient") as [f3|] eqn:H3; [|done].
    injection Hn as <-. assert (fd = f3) as <- by congruence.
    by rewrite (read_bounds _ _ _ _ _ H3).
  - (* removeNoisePhiDP *)
    eexists. split; [|by apply (Htry is_TypeError)].
    intros names. unfold removeNoisePhiDP. rewrite bind_run.
    unfold try_except at 1.
    destruct (fields r !! "PHIDP") as [f1|] eqn:H1.
    { injection Hn as <-. assert (fd = f1) as <- by congruence.
      by rewrite (read_bounds _ _ _ _ _ H1). }
    rewrite (read_bounds_miss _ _ _ _ H1). cbn [is_KeyError].
    destruct (fields r !! "specific_differential_phase") as [f2|] eqn:H2; [|done].
    injection Hn as <-. assert (fd = f2) as <- by congruence.
    by rewrite (read_bounds _ _ _ _ _ H2).
  - (* removeNoiseNCP *)
    destruct (fields r !! "normalized_coherent_power") as [f'|] eqn:E; [|done].
    injection Hn as <-. assert (fd = f') as <- by congruence.
    eexists. split; [|by apply (Htry is_NotImplementedError)].
    intros names. unfold removeNoiseNCP. run_get E. run_get E. reflexivity.
  - (* removeNoiseSNR *)
    destruct (fields r !! "snr") as [f'|] eqn:E; [|done].
    injection Hn as <-. assert (fd = f') as <- by congruence.
    set (m := map2d (fun v => negb ((v <? hi)%float && (lo <? v)%float))
                (ma_data fd)).
    exists (fun field =>
              try_except (data_setitem field m nan) is_NotImplementedError
                (ma_setitem_None field m)).
    split; [|split; [|split]].
    + intros names. unfold removeNoiseSNR. run_get E. run_get E.
      rewrite bind_run. unfold lift, logical_and, lt_scalar, gt_scalar.
      rewrite decide_True by (by rewrite !shape_map2d).
      rewrite zip2d_map2d. unfold invert. rewrite map2d_map2d. reflexivity.
    + apply body_try, body_one_mask.
    + by apply try_missing, one_mask_missing.
    + by apply try_mismatch, one_mask_mismatch.
Qed.

Lemma blank_mask_shape F lo hi (d : list (list float)) :
  shape (blank_mask F lo hi d) = shape d.
Proof. destruct F; simpl; unfold out_of_bounds; apply shape_map2d. Qed.


Lemma polarimetric_listed_one :
  listed [3%nat] ["reflectivity"]%string polarimetric_radar.
Proof.
  intros name Hin. apply list_elem_of_singleton in Hin as ->.
  eexists. split; reflexivity.
Defined.




Lemma ragged_listed : listed [3%nat] ["reflectivity"]%string ragged_radar.
Proof.
  intros name Hin. apply list_elem_of_singleton in Hin as ->.
  eexists. split; reflexivity.
Defined.


(** ** Running a filter twice *)

(** Arrays of one shape that agree at every gate are equal. *)
Lemma array_ext {A : Type} (a b : list (list A)) :
  shape a = shape b -> (forall i j, gate a i j = gate b i j) -> a = b.
Proof.
  unfold shape, gate. intros Hs Hg. apply list_eq. intros i.
  pose proof (f_equal (fun l => l !! i) Hs) as Hi. simpl in Hi.
  rewrite !list_lookup_fmap in Hi. specialize (Hg i).
  destruct (a !! i) as [ra|], (b !! i) as [rb|]; simpl in *; try done.
  f_equal. by apply list_eq.
Qed.

(** A mask that selects no gate outside [m] adds nothing to [m]. *)
Lemma orb_absorbs (m m2 : list (list bool)) :
  shape m2 = shape m ->
  (forall i j, gate m2 i j = Some true -> gate m i j = Some true) ->
  zip2d orb m m2 = m.
Proof.
  intros Hs Hg. apply array_ext.
  - rewrite shape_zip2d; done.
  - intros i j. rewrite gate_zip2d.
    destruct (gate m i j) as [x|] eqn:Ex; simpl; [|done].
    destruct (gate_shape m m2 i j) as [y Hy]; [done|by eexists|].
    rewrite Hy. simpl. specialize (Hg i j). rewrite Hy in Hg.
    destruct y; [|by rewrite orb_false_r].
    specialize (Hg eq_refl). by simplify_eq.
Qed.

Lemma Radar_eq (a b : Radar) :
  fields a = fields b -> metadata a = metadata b -> nsweeps a = nsweeps b ->
  sweep_start_ray_index a = sweep_start_ray_index b ->
  sweep_end_ray_index a = sweep_end_ray_index b -> a = b.
Proof. destruct a, b. simpl. by intros -> -> -> -> ->. Qed.

(** What a field read after a pass holds at a gate: NaN at a gate of the
    mask, and what the field held before anywhere else. *)
Lemma blanked_reread m names r r' n f' i j v' :
  blanked m names r r' ->
  fields r' !! n = Some f' -> gate (ma_data f') i j = Some v' ->
  gate m i j = Some true \/
  exists f, fields r !! n = Some f /\ gate (ma_data f) i j = Some v'.
Proof.
  intros (Hfs & _) Hf' Hv'. rewrite Hfs in Hf'.
  destruct (decide (n ∈ names)); [|right; eauto].
  destruct (fields r !! n) as [f|] eqn:Hf; [|done]. injection Hf' as <-.
  simpl in Hv'. rewrite gate_zip2d in Hv'.
  destruct (gate m i j) as [[]|]; simpl in Hv'; [by left| |done].
  destruct (gate (ma_data f) i j) as [v|] eqn:Hv; [|done].
  right. exists f. split; [done|]. by injection Hv' as <-.
Qed.

Lemma blanked_listed m names r r' :
  blanked m names r r' -> listed (shape m) names r -> listed (shape m) names r'.
Proof.
  intros (Hfs & _) Hl name Hin. destruct (Hl name Hin) as (f & Hf & Hs).
  exists (blank m f). split.
  - by rewrite Hfs, decide_True, Hf.
  - by apply blank_shape.
Qed.

Lemma blanked_shape m names r r' n f f' :
  blanked m names r r' -> listed (shape m) names r ->
  fields r !! n = Some f -> fields r' !! n = Some f' ->
  shape (ma_data f') = shape (ma_data f).
Proof.
  intros (Hfs & _) Hl Hf Hf'. rewrite Hfs, Hf in Hf'.
  destruct (decide (n ∈ names)) as [Hin|]; [|by simplify_eq].
  injection Hf' as <-. destruct (Hl n Hin) as (f0 & Hf0 & Hs).
  assert (f0 = f) as -> by congruence. simpl. by apply shape_zip2d.
Qed.

Lemma blanked_is_Some m names r r' n :
  blanked m names r r' -> is_Some (fields r !! n) -> is_Some (fields r' !! n).
Proof.
  intros (Hfs & _) [f Hf]. rewrite Hfs, Hf. by destruct (decide _).
Qed.

Lemma blanked_is_None m names r r' n :
  blanked m names r r' -> fields r !! n = None -> fields r' !! n = None.
Proof. intros (Hfs & _) Hf. rewrite Hfs, Hf. by destruct (decide _). Qed.

(** A second pass whose mask selects no gate outside the first mask changes
    nothing. *)
Lemma second_pass_noop m m2 names r r' r'' :
  blanked m names r r' -> blanked m2 names r' r'' ->
  listed (shape m) names r -> shape m2 = shape m ->
  (forall i j, gate m2 i j = Some true -> gate m i j = Some true) ->
  r'' = r'.
Proof.
  intros Hb1 Hb2 Hl Hs Hg.
  destruct Hb2 as (Hfs2 & ? & ? & ? & ?). apply Radar_eq; try done.
  apply map_eq. intros name. rewrite Hfs2.
  destruct (decide (name ∈ names)) as [Hin|]; [|done].
  destruct Hb1 as (Hfs1 & _). rewrite Hfs1, decide_True by done.
  destruct (fields r !! name) as [f|]; [|done]. simpl. f_equal.
  unfold blank. simpl. f_equal.
  by rewrite zip2d_assign_twice, orb_absorbs.
Qed.

Lemma first_present_blanked m names r r' chain0 :
  blanked m names r r' -> first_present chain0 r' = first_present chain0 r.
Proof.
  intros Hb. induction chain0 as [|n chain0 IH]; simpl; [done|].
  destruct (fields r !! n) eqn:E.
  - destruct (blanked_is_Some _ _ _ _ n Hb) as [f' ->]; [by rewrite E|done].
  - by rewrite (blanked_is_None _ _ _ _ n Hb E).
Qed.

Lemma blank_mask_test F lo hi :
  exists q : float -> bool, forall d, blank_mask F lo hi d = map2d q d.
Proof. destruct F; eexists; reflexivity. Qed.



(** ** More on [removeMountainClutter] *)

Lemma clutter_mask_shape (vel refl : list (list float)) :
  shape vel = shape refl -> shape (clutter_mask vel refl) = shape refl.
Proof.
  intros H. unfold clutter_mask. rewrite shape_zip2d; by rewrite !shape_map2d.
Qed.

Lemma removeMountainClutter_blanked (r : Radar) (names : list string)
    (fv fz : masked_array) :
  fields r !! "dealiased_velocity" = Some fv ->
  fields r !! "reflectivity" = Some fz ->
  shape (ma_data fv) = shape (ma_data fz) ->
  listed (shape (ma_data fz)) names r ->
  exists r',
    removeMountainClutter names r = (inr tt, r') /\
    blanked (clutter_mask (ma_data fv) (ma_data fz)) names r r'.
Proof.
  intros Hv Hz Hs Hl. unfold removeMountainClutter.
  run_get Hv. run_get Hv. rewrite bind_run.
  unfold lift at 1, logical_and at 1, lt_scalar, gt_scalar.
  rewrite decide_True by (by rewrite !shape_map2d).
  rewrite zip2d_map2d. run_get Hz. rewrite bind_run.
  unfold lift, logical_and. rewrite decide_True by (by rewrite !shape_map2d).
  apply (for_each_blanks (clutter_mask (ma_data fv) (ma_data fz))).
  - apply body_try, body_one_mask.
  - by rewrite clutter_mask_shape.
Qed.

(** X7: [removeMountainClutter] is idempotent: a second run with the same
    field names changes nothing. *)
Theorem removeMountainClutter_idempotent (r : Radar) (names : list string)
    (fv fz : masked_array) :
  fields r !! "dealiased_velocity" = Some fv ->
  fields r !! "reflectivity" = Some fz ->
  shape (ma_data fv) = shape (ma_data fz) ->
  listed (shape (ma_data fz)) names r ->
  (removeMountainClutter names;; removeMountainClutter names) r
  = removeMountainClutter names r.
Proof.
  intros Hv Hz Hs Hl.
  destruct (removeMountainClutter_blanked r names fv fz Hv Hz Hs Hl)
    as (r' & Hrun & Hb).
  rewrite bind_run, Hrun.
  pose proof (clutter_mask_shape _ _ Hs) as Hms.
  assert (listed (shape (clutter_mask (ma_data fv) (ma_data fz))) names r)
    as Hl0 by (by rewrite Hms).
  destruct (blanked_is_Some _ _ _ _ "dealiased_velocity" Hb) as [fv' Hv'];
    [by rewrite Hv|].
  destruct (blanked_is_Some _ _ _ _ "reflectivity" Hb) as [fz' Hz'];
    [by rewrite Hz|].
  pose proof (blanked_shape _ _ _ _ _ _ _ Hb Hl0 Hv Hv') as Hsv.
  pose proof (blanked_shape _ _ _ _ _ _ _ Hb Hl0 Hz Hz') as Hsz.
  destruct (removeMountainClutter_blanked r' names fv' fz' Hv' Hz')
    as (r'' & Hrun2 & Hb2).
  { congruence. }
  { rewrite Hsz, <- Hms. by eapply blanked_listed. }
  rewrite Hrun2. do 2 f_equal.
  eapply second_pass_noop; [exact Hb|exact Hb2|done| |].
  { rewrite !clutter_mask_shape; congruence. }
  intros i j. unfold clutter_mask at 1. rewrite gate_zip2d, !gate_map2d.
  destruct (gate (ma_data fv') i j) as [v'|] eqn:Ev; [|done].
  destruct (gate (ma_data fz') i j) as [z'|] eqn:Ez; [|done].
  simpl. intros [= Hm].
  destruct (blanked_reread _ _ _ _ _ _ _ _ _ Hb Hv' Ev) as [?|(f1 & Hf1 & Hg1)];
    [done|].
  destruct (blanked_reread _ _ _ _ _ _ _ _ _ Hb Hz' Ez) as [?|(f2 & Hf2 & Hg2)];
    [done|].
  assert (f1 = fv) as -> by congruence. assert (f2 = fz) as -> by congruence.
  unfold clutter_mask. by rewrite gate_zip2d, !gate_map2d, Hg1, Hg2; simpl; rewrite Hm.
Qed.

Lemma removeMountainClutter_idempotent_witness :
  (removeMountainClutter ["reflectivity"; "snr"; "dealiased_velocity"]%string;;
   removeMountainClutter ["reflectivity"; "snr"; "dealiased_velocity"]%string)
    polarimetric_radar
  = removeMountainClutter ["reflectivity"; "snr"; "dealiased_velocity"]%string
      polarimetric_radar.
Proof.
  exact (removeMountainClutter_idempotent polarimetric_radar _
           (unmasked [[0.125; 0.125; 7]]%float) (unmasked [[5; 30; 45]]%float)
           eq_refl eq_refl eq_refl polarimetric_listed_all).
Defined.


(** X8: [removeMountainClutter] needs both of its driving fields, whatever
    names are listed: without ['dealiased_velocity'] it raises that
    [KeyError], with it and without ['reflectivity'] it raises the
    [KeyError] of ['reflectivity']; the volume is untouched. *)
Theorem removeMountainClutter_missing_driver (r : Radar) (names : list string) :
  (fields r !! "dealiased_velocity" = None ->
   removeMountainClutter names r = (inl (KeyError "dealiased_velocity"), r)) /\
  (is_Some (fields r !! "dealiased_velocity") ->
   fields r !! "reflectivity" = None ->
   removeMountainClutter names r = (inl (KeyError "reflectivity"), r)).
Proof.
  split.
  - intros Hv. unfold removeMountainClutter. by run_miss Hv.
  - intros [fv Hv] Hz. unfold removeMountainClutter.
    run_get Hv. run_get Hv. rewrite bind_run.
    unfold lift at 1, logical_and at 1, lt_scalar, gt_scalar.
    rewrite decide_True by (by rewrite !shape_map2d).
    by run_miss Hz.
Qed.

Lemma removeMountainClutter_missing_driver_witness :
  removeMountainClutter ["DBZH"]%string dual_pol_radar
  = (inl (KeyError "dealiased_velocity"), dual_pol_radar).
Proof.
  exact (proj1 (removeMountainClutter_missing_driver dual_pol_radar
                  ["DBZH"]%string) eq_refl).
Defined.

(** ** More on [set2range] *)

Lemma leb_refl (a : float) : is_nan a = false -> (a <=? a)%float = true.
Proof. intros H. apply not_ltb_leb; [done..|apply FloatOrder.ltb_irrefl]. Qed.







(** X11: [set2range] changes the data of the named field only: the mask and
    the shape of that field, every other field, the metadata and the sweep
    attributes are as they were. *)
Theorem set2range_frame (r : Radar) (field : string) (f : masked_array)
    (val_max val_min : float) :
  fields r !! field = Some f ->
  exists r' f',
    set2range field val_max val_min r = (inr tt, r') /\
    fields r' !! field = Some f' /\
    ma_mask f' = ma_mask f /\ shape (ma_data f') = shape (ma_data f) /\
    (forall name, name <> field -> fields r' !! name = fields r !! name) /\
    metadata r' = metadata r /\ nsweeps r' = nsweeps r /\
    sweep_start_ray_index r' = sweep_start_ray_index r /\
    sweep_end_ray_index r' = sweep_end_ray_index r.
Proof.
  intros Hf. eexists _, _. split; [by apply set2range_run|].
  split; [apply with_data_lookup|]. simpl.
  split; [done|]. split; [apply shape_map2d|]. split; [|done].
  intros name Hne. by rewrite lookup_insert_ne.
Qed.

Lemma set2range_frame_witness :
  exists r' f',
    set2range "reflectivity" 16%float (-8)%float polarimetric_radar
      = (inr tt, r') /\
    fields r' !! "reflectivity" = Some f' /\
    ma_mask f' = [[false; false; false]] /\
    shape (ma_data f') = [3%nat] /\
    (forall name, name <> "reflectivity" ->
       fields r' !! name = fields polarimetric_radar !! name) /\
    metadata r' = metadata polarimetric_radar /\
    nsweeps r' = nsweeps polarimetric_radar /\
    sweep_start_ray_index r' = sweep_start_ray_index polarimetric_radar /\
    sweep_end_ray_index r' = sweep_end_ray_index polarimetric_radar.
Proof.
  exact (set2range_frame polarimetric_radar "reflectivity"
           (unmasked [[5; 30; 45]]%float) 16%float (-8)%float eq_refl).
Defined.


(** ** [set2range] followed by a noise filter *)

Lemma first_present_dom (l : list string) (r1 r : Radar) :
  (forall n, is_Some (fields r1 !! n) <-> is_Some (fields r !! n)) ->
  first_present l r1 = first_present l r.
Proof.
  intros Hdom. induction l as [|n l IH]; simpl; [done|].
  destruct (Hdom n) as [H1 H2].
  destruct (fields r !! n) eqn:E, (fields r1 !! n) eqn:E1; try done.
  - assert (is_Some (@None masked_array)) as [? ?]
      by (apply H2; by eexists). done.
  - assert (is_Some (@None masked_array)) as [? ?]
      by (apply H1; by eexists). done.
Qed.

(** A pass whose mask selects no gate changes nothing. *)
Lemma blanked_nothing m names r r' :
  blanked m names r r' -> listed (shape m) names r ->
  (forall i j, gate m i j <> Some true) -> r' = r.
Proof.
  intros (Hfs & ? & ? & ? & ?) Hl Hm. apply Radar_eq; try done.
  apply map_eq. intros name. rewrite Hfs.
  destruct (decide (name ∈ names)) as [Hin|]; [|done].
  destruct (Hl name Hin) as (f & Hf & Hs). rewrite Hf. simpl. f_equal.
  destruct f as [d k]. unfold blank. simpl in *. f_equal.
  apply array_ext; [by apply shape_zip2d|].
  intros i j. rewrite gate_zip2d.
  destruct (gate d i j) as [v|] eqn:Ev.
  - destruct (gate_shape d m i j) as [b Hb]; [done|by eexists|].
    rewrite Hb. simpl. destruct b; [by destruct (Hm i j)|done].
  - by destruct (gate m i j).
Qed.

Lemma clamped_in_bounds val_min val_max v :
  (val_min <=? val_max)%float = true ->
  (val_max <? clamped val_min val_max v)%float
  || (clamped val_min val_max v <? val_min)%float = false.
Proof.
  intros Hle. unfold clamped.
  destruct (v <? val_min)%float eqn:E1.
  - by rewrite FloatOrder.ltb_irrefl, (FloatOrder.leb_not_gt _ _ Hle).
  - destruct (val_max <? v)%float eqn:E2.
    + by rewrite (FloatOrder.leb_not_gt _ _ Hle), FloatOrder.ltb_irrefl.
    + by rewrite E1, E2.
Qed.



(** ** [PPI_fixfilename] on short names *)

Lemma py_slice_length {A : Type} (l : list A) (a b : Z) :
  (length (py_slice l (Some a) (Some b)) <=
   slice_index (length l) (Some b) (length l)
   - slice_index (length l) (Some a) 0)%nat.
Proof. unfold py_slice. rewrite length_take. lia. Qed.

(** X13: a name of fewer than 9 characters, or of 15 or 16 characters, is
    returned unchanged whatever it contains: the tested slice then has
    fewer than two characters. *)
Theorem PPI_fixfilename_short_unchanged (filename : str) :
  (length filename < 9 \/ length filename = 15 \/ length filename = 16)%nat ->
  PPI_fixfilename filename = filename.
Proof.
  intros Hlen. apply PPI_fixfilename_skips. intros E.
  apply (f_equal length) in E. unfold tested_slice in E. cbv zeta in E.
  pose proof (py_slice_length filename
                (Z.of_nat (length filename) - 17)
                (Z.of_nat (length filename) - 15)) as H.
  rewrite E in H. simpl length in H. unfold slice_index in H.
  destruct (Z.ltb_spec (Z.of_nat (length filename) - 15) 0),
           (Z.ltb_spec (Z.of_nat (length filename) - 17) 0); lia.
Qed.

Lemma PPI_fixfilename_short_unchanged_witness :
  PPI_fixfilename "s0s0s0s0" = "s0s0s0s0".
Proof.
  apply (PPI_fixfilename_short_unchanged "s0s0s0s0"). left. simpl. lia.
Defined.

(** X14: on a name of 11 to 14 characters the negative slice bounds wrap
    around: when the two characters they select are ['s0'], the text to
    chop is empty and ['SUR_'] is put before every character and at the
    end of the name. *)
Theorem PPI_fixfilename_wraparound (filename : str) :
  (11 <= length filename <= 14)%nat ->
  tested_slice filename = "s0" ->
  PPI_fixfilename filename = intersperse_all "SUR_" filename.
Proof.
  intros Hlen Hs0. unfold tested_slice in Hs0. unfold PPI_fixfilename.
  cbv zeta in *. rewrite decide_True by done.
  assert (py_slice filename (Some (Z.of_nat (length filename) - 17))
            (Some (Z.of_nat (length filename) - 6)) = []) as ->.
  { apply length_zero_iff_nil.
    pose proof (py_slice_length filename
                  (Z.of_nat (length filename) - 17)
                  (Z.of_nat (length filename) - 6)) as H.
    unfold slice_index in H.
    destruct (Z.ltb_spec (Z.of_nat (length filename) - 6) 0),
             (Z.ltb_spec (Z.of_nat (length filename) - 17) 0); lia. }
  rewrite decide_False by (vm_compute; discriminate). reflexivity.
Qed.

Lemma PPI_fixfilename_wraparound_witness :
  PPI_fixfilename "abcdes0hijk"
  = "SUR_aSUR_bSUR_cSUR_dSUR_eSUR_sSUR_0SUR_hSUR_iSUR_jSUR_kSUR_".
Proof.
  apply (PPI_fixfilename_wraparound "abcdes0hijk"); [simpl; lia|reflexivity].
Defined.

(** ** [dealias] when a lookup fails *)

Lemma get_metadata_None key (s : dstate) :
  metadata s.1 !! key = None -> get_metadata key s = (inl (KeyError key), s).
Proof. unfold get_metadata. by intros ->. Qed.

Lemma read_first_ray_fails name i (s : dstate) :
  first_ray_count s.1 name i = None ->
  (sweep ← get_slice i; first_ray_mask name sweep) s
  = (inl (sweep_error s.1 name i), s).
Proof.
  unfold first_ray_count, sweep_error, get_slice, first_ray_mask.
  rewrite bind_run. intros H.
  destruct (sweep_start_ray_index s.1 !! i) as [a|]; [|done].
  destruct (sweep_end_ray_index s.1 !! i) as [b|]; [|done].
  simpl in *. destruct (fields s.1 !! name) as [f|]; [|done]. simpl in *.
  by destruct (py_slice (ma_mask f) (Some a) (Some (b + 1))).
Qed.

(** The loop of [dealias] stops at the first sweep it cannot read. *)
Lemma scan_sweeps_fails name (l1 l2 acc : list nat) (i : nat) (s : dstate) :
  Forall (fun j => is_Some (first_ray_count s.1 name j)) l1 ->
  first_ray_count s.1 name i = None ->
  for_fold (l1 ++ i :: l2) acc (fun i good =>
    sweep ← get_slice i;
    row ← first_ray_mask name sweep;
    if bool_decide (count_unmasked row ≠ 0%nat)
    then mret (good ++ [i])
    else mret good) s
  = (inl (sweep_error s.1 name i), s).
Proof.
  intros Hall Hi. revert acc. induction Hall as [|j l1 [n Hn] Hall IH];
    intros acc; simpl.
  - pose proof (read_first_ray_fails name i s Hi) as H.
    rewrite bind_run in H. rewrite !bind_run.
    destruct (get_slice i s) as [[e|sweep] s1]; [by simplify_eq|].
    rewrite bind_run. by rewrite H.
  - destruct (read_first_ray _ _ _ _ Hn) as (sweep & row & H1 & H2 & Hc).
    rewrite !bind_run, H1, bind_run, H2.
    destruct (bool_decide (count_unmasked row ≠ 0%nat)); apply IH.
Qed.

(** X15: when the metadata has no ['original_container'] entry, [dealias]
    raises that [KeyError] at once: nothing is printed, no library function
    is called, no file is written and the volume is untouched. *)
Theorem dealias_missing_container (lib : pyart) (r : Radar)
    (filename outpath : str) (name2dealias new_name : string)
    (nyquist_vel : option float) (skip_along_ray skip_between_rays : Z)
    (savefile : bool) :
  metadata r !! "original_container" = None ->
  dealias lib filename outpath name2dealias new_name nyquist_vel
    skip_along_ray skip_between_rays savefile (r, [])
  = (inl (KeyError "original_container"), (r, [])).
Proof.
  intros H. unfold dealias. rewrite bind_run.
  by erewrite get_metadata_None by exact H.
Qed.

Lemma dealias_missing_container_witness :
  dealias sample_pyart "scan.uf" "out/" "DBZH" "dealiased_velocity"
    (Some 10%float) 0 0 true (dual_pol_radar, [])
  = (inl (KeyError "original_container"), (dual_pol_radar, [])).
Proof.
  exact (dealias_missing_container sample_pyart dual_pol_radar "scan.uf" "out/"
           "DBZH" "dealiased_velocity" (Some 10%float) 0 0 true eq_refl).
Defined.


(** X16: for a volume that is not NEXRAD and a given Nyquist velocity, when
    sweep [i] is the first whose first ray cannot be read (the field is
    missing, the sweep has no rays, or an index list is too short),
    [dealias] raises the exception of that read after printing its
    progress line: no library function is called, no file is written and
    the volume is untouched. *)
Theorem dealias_unreadable_sweep (lib : pyart) (r : Radar)
    (filename outpath : str) (name2dealias new_name : string)
    (v : float) (skip_along_ray skip_between_rays : Z)
    (savefile : bool) (tag : string) (i : nat) :
  metadata r !! "original_container" = Some tag ->
  tag <> NEXRAD ->
  (i < nsweeps r)%nat ->
  (forall j, (j < i)%nat -> is_Some (first_ray_count r name2dealias j)) ->
  first_ray_count r name2dealias i = None ->
  dealias lib filename outpath name2dealias new_name (Some v)
    skip_along_ray skip_between_rays savefile (r, [])
  = (inl (sweep_error r name2dealias i),
     (r, [Print "Dealiasing in progress!"])).
Proof.
  intros Htag Hne Hi Hbefore Hfail. unfold dealias, NEXRAD in *.
  rewrite bind_run. erewrite get_metadata_Some by exact Htag.
  rewrite bool_decide_true by done.
  rewrite !bind_run.
  cbv beta iota delta [emit get_radar put_radar fst snd].
  rewrite !bind_run.
  replace (seq 0 (nsweeps r))
    with (seq 0 i ++ i :: seq (S i) (nsweeps r - S i)).
  2:{ replace (nsweeps r) with (i + S (nsweeps r - S i))%nat at 2 by lia.
      by rewrite seq_app. }
  rewrite (scan_sweeps_fails name2dealias (seq 0 i) _ [] i (r, [] ++ _)).
  - reflexivity.
  - apply Forall_forall. intros j Hj. apply Hbefore.
    apply elem_of_seq in Hj. lia.
  - done.
Qed.

Lemma dealias_unreadable_sweep_witness :
  dealias sample_pyart "scan.uf" "out/" "velocity" "dealiased_velocity"
    (Some 10%float) 0 0 true (rayless_radar, [])
  = (inl IndexError, (rayless_radar, [Print "Dealiasing in progress!"])).
Proof.
  refine (dealias_unreadable_sweep sample_pyart rayless_radar "scan.uf" "out/"
            "velocity" "dealiased_velocity" 10%float 0 0 true "UF" 1
            eq_refl _ _ _ eq_refl).
  - discriminate.
  - simpl. lia.
  - intros j Hj. assert (j = 0%nat) as -> by lia. by eexists.
Defined.
